(** * Caching: the on-disk run-time cache of coala

    A shallow embedding of [coalib/misc/Caching.py] and the properties of
    its two stores: the run-time store ([caching_db]: project -> file ->
    last run time) and the changed-files store ([changed_files_db]:
    project -> set of files).

    The Python functions work on a file system, a log printer and pickled
    Python objects.  They are embedded as computations in a state and
    exception monad over a [world] (files and emitted warnings); Python
    objects are the values of [pyval]; [pickle.dumps] and [pickle.loads],
    the cache directory and the two store names are parameters of the
    development.

    The functions are embedded a second time over a heap of objects with
    identity, for the one property that depends on who holds an object:
    what an operation on a project leaves of another project. *)

From Stdlib Require Import ZArith Strings.String Strings.Ascii Lists.List
  Strings.Byte.
From stdpp Require Import base tactics option strings list gmap.

Local Open Scope Z_scope.
Local Open Scope string_scope.

(** ** Python values

    The objects this module pickles: [None], integers, sets of strings and
    dictionaries with string keys.  Values are trees, and an assignment
    builds a new tree: this describes the stores in which no dictionary
    or set is held in two places, and of a function what it returns and
    writes, not the change of an object that somebody else holds.  Stores
    that hold one object in two places are described by the heap of
    "Python objects with identity" below. *)

#[warnings="-register-all"]
Inductive pyval :=
| VNone
| VInt (n : Z)
| VSet (s : gset string)
| VDict (d : gmap string pyval).

(** ** Exceptions and outcomes *)

Inductive exn :=
| OSError
| UnpicklingError
| EOFError
| TypeError
| AttributeError
| KeyError
| ValueError
| ImportError
| IndexError.

#[global] Instance exn_eq_dec : EqDecision exn.
Proof. solve_decision. Defined.

(** The outcome of a Python expression: a value, a raised exception, or
    [Unmodelled] when Python builds an object that [pyval] does not
    describe (no theorem below concludes [Unmodelled]). *)
Inductive result (A : Type) :=
| Ok (a : A)
| Raise (e : exn)
| Unmodelled.
Arguments Ok {A} a.
Arguments Raise {A} e.
Arguments Unmodelled {A}.

Definition result_bind {A B} (r : result A) (f : A -> result B) : result B :=
  match r with
  | Ok a => f a
  | Raise e => Raise e
  | Unmodelled => Unmodelled
  end.

Notation "'let?' x ':=' r 'in' k" := (result_bind r (fun x => k))
  (at level 10, x name, r at level 100, k at level 200,
   format "'[v' 'let?'  x  ':='  r  'in' '/' k ']'").

(** ** Operations of Python objects *)

(** [k in o] *)
Definition py_contains (o : pyval) (k : string) : result bool :=
  match o with
  | VDict d => Ok (bool_decide (is_Some (d !! k)))
  | VSet s => Ok (bool_decide (k ∈ s))
  | VNone | VInt _ => Raise TypeError
  end.

(** [o[k]] *)
Definition py_getitem (o : pyval) (k : string) : result pyval :=
  match o with
  | VDict d => match d !! k with Some v => Ok v | None => Raise KeyError end
  | VSet _ | VNone | VInt _ => Raise TypeError
  end.

(** [o[k] = v]; the updated object is returned. *)
Definition py_setitem (o : pyval) (k : string) (v : pyval) : result pyval :=
  match o with
  | VDict d => Ok (VDict (<[k := v]> d))
  | VSet _ | VNone | VInt _ => Raise TypeError
  end.

(** [o.get(k, dflt)] *)
Definition py_get (o : pyval) (k : string) (dflt : pyval) : result pyval :=
  match o with
  | VDict d => Ok (default dflt (d !! k))
  | VSet _ | VNone | VInt _ => Raise AttributeError
  end.

(** [for x in o]: the strings the loop visits. *)
Definition py_iter (o : pyval) : result (list string) :=
  match o with
  | VDict d => Ok (map_to_list d).*1
  | VSet s => Ok (elements s)
  | VNone | VInt _ => Raise TypeError
  end.

(** [o.update(files)] for a set of strings [files]; the updated object is
    returned.  On a dictionary Python reads every string of [files] as a
    key and value pair, which leaves [pyval]. *)
Definition py_update (o : pyval) (files : gset string) : result pyval :=
  match o with
  | VSet s => Ok (VSet (s ∪ files))
  | VDict d => if decide (files = ∅) then Ok (VDict d) else Unmodelled
  | VNone | VInt _ => Raise AttributeError
  end.

(** ** Paths: [os.path.join] and [os.path.dirname] of posixpath *)

Definition sep : ascii := "/"%char.

Definition startswith_sep (p : string) : bool :=
  match p with
  | String c _ => bool_decide (c = sep)
  | EmptyString => false
  end.

Fixpoint endswith_sep (p : string) : bool :=
  match p with
  | EmptyString => false
  | String c EmptyString => bool_decide (c = sep)
  | String _ p' => endswith_sep p'
  end.

(** [os.path.join(a, b)] *)
Definition path_join (a b : string) : string :=
  if startswith_sep b then b
  else if bool_decide (a = "") || endswith_sep a then a ++ b
  else a ++ String sep b.

(** [p[:p.rfind('/') + 1]] *)
Fixpoint head_of (p : string) : string :=
  match p with
  | EmptyString => ""
  | String c p' =>
      match head_of p' with
      | EmptyString => if bool_decide (c = sep) then String sep "" else ""
      | h => String c h
      end
  end.

(** [s == '/' * len(s)] *)
Fixpoint all_sep (s : string) : bool :=
  match s with
  | EmptyString => true
  | String c s' => bool_decide (c = sep) && all_sep s'
  end.

(** [s.rstrip('/')] *)
Fixpoint rstrip_sep (s : string) : string :=
  match s with
  | EmptyString => ""
  | String c s' =>
      match rstrip_sep s' with
      | EmptyString => if bool_decide (c = sep) then "" else String c ""
      | r => String c r
      end
  end.

(** ['/' in s] *)
Fixpoint has_sep (s : string) : bool :=
  match s with
  | EmptyString => false
  | String c s' => bool_decide (c = sep) || has_sep s'
  end.

(** [os.path.dirname(p)] *)
Definition path_dirname (p : string) : string :=
  let head := head_of p in
  if negb (bool_decide (head = "")) && negb (all_sep head)
  then rstrip_sep head else head.

(** ** The world: files and the log printer

    The cache directory is a flat directory of regular files, addressed by
    their path; it exists and is writable.  [os.remove] of a path that is
    not a file raises [OSError].  [log] holds the warnings given to the
    log printer, oldest first. *)

Record world := World {
  fs : gmap string (list byte);
  log : list string
}.

Definition M (A : Type) : Type := world -> result A * world.

Definition ret {A} (a : A) : M A := fun w => (Ok a, w).

Definition bind {A B} (m : M A) (f : A -> M B) : M B := fun w =>
  match m w with
  | (Ok a, w') => f a w'
  | (Raise e, w') => (Raise e, w')
  | (Unmodelled, w') => (Unmodelled, w')
  end.

Notation "'let*' x ':=' m 'in' k" := (bind m (fun x => k))
  (at level 10, x name, m at level 100, k at level 200,
   format "'[v' 'let*'  x  ':='  m  'in' '/' k ']'").

(** A pure outcome as a computation. *)
Definition lift {A} (r : result A) : M A := fun w => (r, w).

(** [try: body except <classes>: handler] *)
Definition try_except {A} (body : M A) (classes : list exn) (handler : M A)
  : M A := fun w =>
  match body w with
  | (Raise e, w') =>
      if bool_decide (e ∈ classes) then handler w' else (Raise e, w')
  | r => r
  end.

(** [log_printer.warn(msg)] *)
Definition warn (msg : string) : M unit := fun w =>
  (Ok tt, World (fs w) (log w ++ [msg])).

(** [os.path.isfile(path)] *)
Definition os_path_isfile (path : string) : M bool := fun w =>
  (Ok (bool_decide (is_Some (fs w !! path))), w).

(** [os.remove(path)] *)
Definition os_remove (path : string) : M unit := fun w =>
  match fs w !! path with
  | Some _ => (Ok tt, World (delete path (fs w)) (log w))
  | None => (Raise OSError, w)
  end.

(** [open(path, "rb")] and reading the whole file. *)
Definition read_file (path : string) : M (list byte) := fun w =>
  match fs w !! path with
  | Some content => (Ok content, w)
  | None => (Raise OSError, w)
  end.

(** [open(path, "wb")] and writing [content].  The write is taken to
    succeed, as the directory is taken to exist and to be writable: a
    failure of [open] or in the middle of the write, which the source lets
    through, is not described, and nothing below is about it. *)
Definition write_file (path : string) (content : list byte) : M unit :=
  fun w => (Ok tt, World (<[path := content]> (fs w)) (log w)).

(** ** Python objects with identity

    A dictionary or a set is an object: Python changes it in place, two
    entries of a dictionary can hold one and the same object, and pickle
    writes and reads such an object once, so that it is one object again
    after a load.  [pyval] cannot say this.  The heap below can: an object
    has a reference, a value is [None], an integer or the reference of an
    object, and an assignment through one reference is seen through every
    other one.  The strings of a set and the keys of a dictionary are
    immutable and are held in the object itself. *)

Abbreviation ref := positive (only parsing).

Inductive hval :=
| HNone
| HInt (n : Z)
| HRef (r : ref).

#[global] Instance hval_eq_dec : EqDecision hval.
Proof. solve_decision. Defined.

Inductive hobj :=
| HSet (s : gset string)
| HDict (d : gmap string hval).

Abbreviation heap := (gmap positive hobj) (only parsing).

(** A value together with the objects it is made of: what pickle writes
    and what it reads. *)
Record graph := Graph {
  root : hval;
  objects : heap
}.

(** The greatest reference in use. *)
Definition top (h : heap) : ref :=
  map_fold (fun r _ acc => Pos.max r acc) 1%positive h.

(** [{}], [set()] or an object of the caller: a new object. *)
Definition heap_new (o : hobj) (h : heap) : hval * heap :=
  let r := Pos.succ (top h) in (HRef r, <[r := o]> h).

(** [k in o] *)
Definition heap_contains (o : hval) (k : string) (h : heap) : result bool :=
  match o with
  | HRef r =>
      match h !! r with
      | Some (HDict d) => Ok (bool_decide (is_Some (d !! k)))
      | Some (HSet s) => Ok (bool_decide (k ∈ s))
      | None => Unmodelled
      end
  | HNone | HInt _ => Raise TypeError
  end.

(** [o[k]] *)
Definition heap_getitem (o : hval) (k : string) (h : heap) : result hval :=
  match o with
  | HRef r =>
      match h !! r with
      | Some (HDict d) =>
          match d !! k with Some v => Ok v | None => Raise KeyError end
      | Some (HSet _) => Raise TypeError
      | None => Unmodelled
      end
  | HNone | HInt _ => Raise TypeError
  end.

(** [o[k] = v]: the object [o] refers to is changed in place. *)
Definition heap_setitem (o : hval) (k : string) (v : hval) (h : heap)
  : result heap :=
  match o with
  | HRef r =>
      match h !! r with
      | Some (HDict d) => Ok (<[r := HDict (<[k := v]> d)]> h)
      | Some (HSet _) => Raise TypeError
      | None => Unmodelled
      end
  | HNone | HInt _ => Raise TypeError
  end.

(** [o.get(k, dflt)] *)
Definition heap_get (o : hval) (k : string) (dflt : hval) (h : heap)
  : result hval :=
  match o with
  | HRef r =>
      match h !! r with
      | Some (HDict d) => Ok (default dflt (d !! k))
      | Some (HSet _) => Raise AttributeError
      | None => Unmodelled
      end
  | HNone | HInt _ => Raise AttributeError
  end.

(** [for x in o]: the strings the loop visits. *)
Definition heap_iter (o : hval) (h : heap) : result (list string) :=
  match o with
  | HRef r =>
      match h !! r with
      | Some (HDict d) => Ok (map_to_list d).*1
      | Some (HSet s) => Ok (elements s)
      | None => Unmodelled
      end
  | HNone | HInt _ => Raise TypeError
  end.

(** What [o.update(arg)] reads of [arg]: the strings of a set, the keys
    and values of a dictionary. *)
Definition heap_items (arg : hval) (h : heap) : result hobj :=
  match arg with
  | HRef a =>
      match h !! a with
      | Some items => Ok items
      | None => Unmodelled
      end
  | HNone | HInt _ => Raise TypeError
  end.

(** [o.update(arg)]: the object [o] refers to is changed in place.  A
    dictionary reads every string of a set as a key and value pair, which
    leaves the objects described here. *)
Definition heap_update (o arg : hval) (h : heap) : result heap :=
  match o with
  | HRef r =>
      match h !! r with
      | Some (HSet s) =>
          let? items := heap_items arg h in
          match items with
          | HSet s' => Ok (<[r := HSet (s ∪ s')]> h)
          | HDict d' => Ok (<[r := HSet (s ∪ dom d')]> h)
          end
      | Some (HDict d) =>
          let? items := heap_items arg h in
          match items with
          | HDict d' => Ok (<[r := HDict (d' ∪ d)]> h)
          | HSet s' => if decide (s' = ∅) then Ok h else Unmodelled
          end
      | None => Unmodelled
      end
  | HNone | HInt _ => Raise AttributeError
  end.

(** *** What a load builds

    [pickle.load] builds new objects: the graph read from a file is placed
    above the objects there are, every reference moved by as much.  A graph
    with a reference to no object is the graph of no pickle. *)

Definition bound (h : heap) (v : hval) : bool :=
  match v with
  | HRef r => bool_decide (is_Some (h !! r))
  | HNone | HInt _ => true
  end.

Definition bound_obj (h : heap) (o : hobj) : bool :=
  match o with
  | HSet _ => true
  | HDict d => forallb (bound h) (map_to_list d).*2
  end.

Definition closed (g : graph) : bool :=
  bound (objects g) (root g)
  && forallb (bound_obj (objects g)) (map_to_list (objects g)).*2.

Definition move_val (base : ref) (v : hval) : hval :=
  match v with
  | HRef r => HRef (base + r)%positive
  | HNone | HInt _ => v
  end.

Definition move_obj (base : ref) (o : hobj) : hobj :=
  match o with
  | HSet s => HSet s
  | HDict d => HDict (move_val base <$> d)
  end.

Definition graft (g : graph) (h : heap) : result (hval * heap) :=
  if closed g then
    let base := top h in
    Ok (move_val base (root g),
        h ∪ kmap (Pos.add base) (move_obj base <$> objects g))
  else Unmodelled.

(** *** Computations on the heap and the world *)

Definition MH (A : Type) : Type := heap -> M (A * heap).

Definition hret {A} (a : A) : MH A := fun h => ret (a, h).

Definition hbind {A B} (m : MH A) (f : A -> MH B) : MH B := fun h =>
  let* r := m h in f r.1 r.2.

Notation "'let+' x ':=' m 'in' k" := (hbind m (fun x => k))
  (at level 10, x name, m at level 100, k at level 200,
   format "'[v' 'let+'  x  ':='  m  'in' '/' k ']'").

(** A computation on the files and the log. *)
Definition io {A} (m : M A) : MH A := fun h =>
  let* a := m in ret (a, h).

(** An expression that reads objects, and a statement that changes one. *)
Definition look {A} (f : heap -> result A) : MH A := fun h =>
  lift (let? a := f h in Ok (a, h)).

Definition mutate (f : heap -> result heap) : MH unit := fun h =>
  lift (let? h := f h in Ok (tt, h)).

Definition new (o : hobj) : MH hval := fun h => ret (heap_new o h).

(** [try: body except <classes>: handler]; the handler finds the objects
    as they were when the body started (what the body built is out of
    reach). *)
Definition try_except_heap {A} (body : MH A) (classes : list exn)
    (handler : MH A) : MH A := fun h =>
  try_except (body h) classes (handler h).

(** ** An instance of pickle

    A fragment of pickle's stack machine, enough for the values of [pyval],
    used to run the module on concrete files.  [dumps] writes a pickle that
    [pickle.loads] accepts (not byte for byte the one [pickle.dumps]
    writes); [loads] answers [Unmodelled] as soon as a run leaves the
    fragment.  The theorems are stated for any pickle; the examples at the
    end of the file run this one. *)

Module Pickle.

Local Open Scope Z_scope.

Definition byte_of_Z (n : Z) : byte :=
  default x00 (Byte.of_N (Z.to_N (n mod 256))).

(** [k] bytes of [n], little-endian, two's complement. *)
Fixpoint le_bytes (k : nat) (n : Z) : list byte :=
  match k with
  | O => []
  | S k' => byte_of_Z n :: le_bytes k' (n / 256)
  end.

(** The unsigned value of little-endian bytes. *)
Fixpoint of_le (bs : list byte) : Z :=
  match bs with
  | [] => 0
  | b :: bs' => Z.of_N (Byte.to_N b) + 256 * of_le bs'
  end.

Definition signed32 (n : Z) : Z :=
  if n <? 2 ^ 31 then n else n - 2 ^ 32.

Definition bytes_of_str (s : string) : list byte := list_byte_of_string s.

(** BININT, or LONG1 and LONG4 outside 32 bits. *)
Definition dump_int (n : Z) : list byte :=
  if (- 2 ^ 31 <=? n) && (n <? 2 ^ 31) then x4a :: le_bytes 4 n
  else
    let k := Z.to_nat (Z.log2 (Z.abs n) / 8 + 1) in
    if (k <? 256)%nat then x8a :: byte_of_Z (Z.of_nat k) :: le_bytes k n
    else x8b :: (le_bytes 4 (Z.of_nat k) ++ le_bytes k n)%list.

(** BINUNICODE *)
Definition dump_str (s : string) : list byte :=
  let bs := bytes_of_str s in
  x58 :: (le_bytes 4 (Z.of_nat (length bs)) ++ bs)%list.

Fixpoint dump_obj (v : pyval) : list byte :=
  match v with
  | VNone => [x4e]
  | VInt n => dump_int n
  | VSet s =>
      x8f :: x28 :: (concat (dump_str <$> elements s) ++ [x90])%list
  | VDict d =>
      x7d :: x28 ::
        (map_fold (fun k v' acc => dump_str k ++ dump_obj v' ++ acc) [] d
           ++ [x75])%list
  end.

Definition dumps (v : pyval) : list byte := (dump_obj v ++ [x2e])%list.

(** What the stack of the unpickler holds. *)
Inductive item :=
| Mark
| Str (s : string)
| Obj (v : pyval).

(** [target[key] = value] as SETITEM and SETITEMS do it. *)
Definition setitem (target key value : item) : result item :=
  match target with
  | Obj (VDict d) =>
      match key, value with
      | Str k, Obj v => Ok (Obj (VDict (<[k := v]> d)))
      | Obj (VSet _), _ | Obj (VDict _), _ => Raise TypeError
      | _, _ => Unmodelled
      end
  | Mark => Unmodelled
  | _ => Raise TypeError
  end.

(** [pairs] is key, value, key, value, ... from the bottom of the stack;
    an odd number of items is refused before any assignment. *)
Fixpoint setitems_even (target : item) (pairs : list item) : result item :=
  match pairs with
  | key :: value :: pairs' =>
      let? target := setitem target key value in
      setitems_even target pairs'
  | _ => Ok target
  end.

Definition setitems (target : item) (pairs : list item) : result item :=
  if Nat.even (length pairs) then setitems_even target pairs
  else Raise UnpicklingError.

Definition additem (target : gset string) (x : item) : result (gset string) :=
  match x with
  | Str s => Ok (target ∪ {[s]})
  | Obj (VSet _) | Obj (VDict _) => Raise TypeError
  | _ => Unmodelled
  end.

Fixpoint additems (target : gset string) (xs : list item)
  : result (gset string) :=
  match xs with
  | [] => Ok target
  | x :: xs' =>
      let? target := additem target x in
      additems target xs'
  end.

(** The items above the topmost mark (top first) and the stack below it. *)
Fixpoint pop_mark (stack : list item) : option (list item * list item) :=
  match stack with
  | [] => None
  | Mark :: below => Some ([], below)
  | x :: stack' =>
      match pop_mark stack' with
      | Some (above, below) => Some (x :: above, below)
      | None => None
      end
  end.

Definition is_ascii (bs : list byte) : bool :=
  forallb (fun b => (Byte.to_N b <? 128)%N) bs.

(** One run of the machine; [fuel] bounds the opcodes read. *)
Fixpoint run (fuel : nat) (input : list byte) (stack : list item)
  : result pyval :=
  match fuel, input with
  | O, _ => Unmodelled
  | _, [] => Raise EOFError
  | S fuel, op :: input =>
      match op with
      | x2e (* STOP *) =>
          match stack with
          | Obj v :: _ => Ok v
          | Str _ :: _ => Unmodelled
          | _ => Raise UnpicklingError
          end
      | x4e (* NONE *) => run fuel input (Obj VNone :: stack)
      | x7d (* EMPTY_DICT *) => run fuel input (Obj (VDict ∅) :: stack)
      | x8f (* EMPTY_SET *) => run fuel input (Obj (VSet ∅) :: stack)
      | x28 (* MARK *) => run fuel input (Mark :: stack)
      | x4a (* BININT *) =>
          if (length input <? 4)%nat then Raise UnpicklingError
          else run fuel (drop 4 input)
                 (Obj (VInt (signed32 (of_le (take 4 input)))) :: stack)
      | x58 (* BINUNICODE *) =>
          if (length input <? 4)%nat then Raise UnpicklingError
          else
            let n := Z.to_nat (of_le (take 4 input)) in
            let input := drop 4 input in
            if (length input <? n)%nat then Raise UnpicklingError
            else if is_ascii (take n input) then
              run fuel (drop n input)
                (Str (string_of_list_byte (take n input)) :: stack)
            else Unmodelled
      | x73 (* SETITEM *) =>
          match stack with
          | Mark :: _ | _ :: Mark :: _ | _ :: _ :: Mark :: _ =>
              Raise UnpicklingError
          | value :: key :: target :: stack' =>
              match setitem target key value with
              | Ok target => run fuel input (target :: stack')
              | Raise e => Raise e
              | Unmodelled => Unmodelled
              end
          | _ => Raise UnpicklingError
          end
      | x75 (* SETITEMS *) =>
          match pop_mark stack with
          | Some (above, target :: stack') =>
              match target with
              | Mark => Raise UnpicklingError
              | _ =>
                  match setitems target (rev above) with
                  | Ok target => run fuel input (target :: stack')
                  | Raise e => Raise e
                  | Unmodelled => Unmodelled
                  end
              end
          | _ => Raise UnpicklingError
          end
      | x90 (* ADDITEMS *) =>
          match pop_mark stack with
          | Some ([], target :: stack') =>
              match target with
              | Mark => Raise UnpicklingError
              | _ => run fuel input (target :: stack')
              end
          | Some (above, target :: stack') =>
              match target with
              | Mark => Raise UnpicklingError
              | Obj (VSet s) =>
                  match additems s (rev above) with
                  | Ok s => run fuel input (Obj (VSet s) :: stack')
                  | Raise e => Raise e
                  | Unmodelled => Unmodelled
                  end
              | _ => Raise AttributeError
              end
          | _ => Raise UnpicklingError
          end
      | _ =>
          (* below "(" no byte is an opcode; above it, opcodes outside
             the fragment *)
          if (Byte.to_N op <? 40)%N then Raise UnpicklingError
          else Unmodelled
      end
  end.

Definition loads (input : list byte) : result pyval :=
  run (S (length input)) input [].

(** *** The memo

    The pickler writes an object once and gives it a place in the memo
    (BINPUT); where it meets the object again it writes the place (BINGET),
    and the unpickler puts the one object there.  The machine below works
    on a heap; it is the machine of [run] otherwise. *)

(** BINPUT and BINGET, or LONG_BINPUT and LONG_BINGET from place 256. *)
Definition dump_put (i : N) : list byte :=
  if (i <? 256)%N then [x71; byte_of_Z (Z.of_N i)]
  else x72 :: le_bytes 4 (Z.of_N i).

Definition dump_get (i : N) : list byte :=
  if (i <? 256)%N then [x68; byte_of_Z (Z.of_N i)]
  else x6a :: le_bytes 4 (Z.of_N i).

(** The pickle of [v] and the memo after it; [fuel] bounds the nesting.
    Nothing is written for a reference to no object. *)
Fixpoint dump_val (fuel : nat) (h : heap) (v : hval) (memo : gmap ref N)
  : list byte * gmap ref N :=
  match v with
  | HNone => ([x4e], memo)
  | HInt n => (dump_int n, memo)
  | HRef r =>
      match memo !! r with
      | Some i => (dump_get i, memo)
      | None =>
          let i := N.of_nat (size memo) in
          match fuel, h !! r with
          | S fuel, Some (HSet s) =>
              (x8f :: dump_put i ++
                 x28 :: concat (dump_str <$> elements s) ++ [x90],
               <[r := i]> memo)%list
          | S fuel, Some (HDict d) =>
              let items :=
                map_fold
                  (fun k v' (acc : list byte * gmap ref N) =>
                     let written := dump_val fuel h v' acc.2 in
                     (acc.1 ++ dump_str k ++ written.1, written.2)%list)
                  ([], <[r := i]> memo) d in
              (x7d :: dump_put i ++ x28 :: items.1 ++ [x75], items.2)%list
          | _, _ => ([], memo)
          end
      end
  end.

Definition dumps_graph (g : graph) : list byte :=
  ((dump_val (S (size (objects g))) (objects g) (root g) ∅).1 ++ [x2e])%list.

(** What the stack and the memo of the unpickler hold. *)
Inductive slot :=
| SMark
| SStr (s : string)
| SVal (v : hval).

(** [target[key] = value] as SETITEM and SETITEMS do it. *)
Definition setitem_graph (target key value : slot) (h : heap) : result heap :=
  match target with
  | SVal (HRef r) =>
      match h !! r with
      | Some (HDict d) =>
          match key, value with
          | SStr k, SVal v => Ok (<[r := HDict (<[k := v]> d)]> h)
          | SVal (HRef _), _ => Raise TypeError
          | _, _ => Unmodelled
          end
      | Some (HSet _) => Raise TypeError
      | None => Unmodelled
      end
  | SMark => Unmodelled
  | _ => Raise TypeError
  end.

Fixpoint setitems_graph_even (target : slot) (pairs : list slot) (h : heap)
  : result heap :=
  match pairs with
  | key :: value :: pairs' =>
      let? h := setitem_graph target key value h in
      setitems_graph_even target pairs' h
  | _ => Ok h
  end.

Definition setitems_graph (target : slot) (pairs : list slot) (h : heap)
  : result heap :=
  if Nat.even (length pairs) then setitems_graph_even target pairs h
  else Raise UnpicklingError.

Definition additem_graph (target : gset string) (x : slot)
  : result (gset string) :=
  match x with
  | SStr s => Ok (target ∪ {[s]})
  | SVal (HRef _) => Raise TypeError
  | _ => Unmodelled
  end.

Fixpoint additems_graph (target : gset string) (xs : list slot)
  : result (gset string) :=
  match xs with
  | [] => Ok target
  | x :: xs' =>
      let? target := additem_graph target x in
      additems_graph target xs'
  end.

Fixpoint pop_mark_graph (stack : list slot)
  : option (list slot * list slot) :=
  match stack with
  | [] => None
  | SMark :: below => Some ([], below)
  | x :: stack' =>
      match pop_mark_graph stack' with
      | Some (above, below) => Some (x :: above, below)
      | None => None
      end
  end.

(** [memo[place] = stack[-1]] *)
Definition put (place : N) (stack : list slot) (memo : gmap N slot)
  : result (gmap N slot) :=
  match stack with
  | [] | SMark :: _ => Raise UnpicklingError
  | x :: _ => Ok (<[place := x]> memo)
  end.

(** One run of the machine; [fuel] bounds the opcodes read.  What an
    unknown place of the memo raises depends on the version of Python. *)
Fixpoint run_graph (fuel : nat) (input : list byte) (stack : list slot)
    (memo : gmap N slot) (h : heap) : result graph :=
  match fuel, input with
  | O, _ => Unmodelled
  | _, [] => Raise EOFError
  | S fuel, op :: input =>
      match op with
      | x2e (* STOP *) =>
          match stack with
          | SVal v :: _ => Ok (Graph v h)
          | SStr _ :: _ => Unmodelled
          | _ => Raise UnpicklingError
          end
      | x4e (* NONE *) => run_graph fuel input (SVal HNone :: stack) memo h
      | x7d (* EMPTY_DICT *) =>
          let made := heap_new (HDict ∅) h in
          run_graph fuel input (SVal made.1 :: stack) memo made.2
      | x8f (* EMPTY_SET *) =>
          let made := heap_new (HSet ∅) h in
          run_graph fuel input (SVal made.1 :: stack) memo made.2
      | x28 (* MARK *) => run_graph fuel input (SMark :: stack) memo h
      | x4a (* BININT *) =>
          if (length input <? 4)%nat then Raise UnpicklingError
          else run_graph fuel (drop 4 input)
                 (SVal (HInt (signed32 (of_le (take 4 input)))) :: stack)
                 memo h
      | x58 (* BINUNICODE *) =>
          if (length input <? 4)%nat then Raise UnpicklingError
          else
            let n := Z.to_nat (of_le (take 4 input)) in
            let input := drop 4 input in
            if (length input <? n)%nat then Raise UnpicklingError
            else if is_ascii (take n input) then
              run_graph fuel (drop n input)
                (SStr (string_of_list_byte (take n input)) :: stack) memo h
            else Unmodelled
      | x71 (* BINPUT *) =>
          if (length input <? 1)%nat then Raise UnpicklingError
          else
            match put (Z.to_N (of_le (take 1 input))) stack memo with
            | Ok memo => run_graph fuel (drop 1 input) stack memo h
            | Raise e => Raise e
            | Unmodelled => Unmodelled
            end
      | x72 (* LONG_BINPUT *) =>
          if (length input <? 4)%nat then Raise UnpicklingError
          else
            match put (Z.to_N (of_le (take 4 input))) stack memo with
            | Ok memo => run_graph fuel (drop 4 input) stack memo h
            | Raise e => Raise e
            | Unmodelled => Unmodelled
            end
      | x68 (* BINGET *) =>
          if (length input <? 1)%nat then Raise UnpicklingError
          else
            match memo !! Z.to_N (of_le (take 1 input)) with
            | Some x => run_graph fuel (drop 1 input) (x :: stack) memo h
            | None => Unmodelled
            end
      | x6a (* LONG_BINGET *) =>
          if (length input <? 4)%nat then Raise UnpicklingError
          else
            match memo !! Z.to_N (of_le (take 4 input)) with
            | Some x => run_graph fuel (drop 4 input) (x :: stack) memo h
            | None => Unmodelled
            end
      | x73 (* SETITEM *) =>
          match stack with
          | SMark :: _ | _ :: SMark :: _ | _ :: _ :: SMark :: _ =>
              Raise UnpicklingError
          | value :: key :: target :: stack' =>
              match setitem_graph target key value h with
              | Ok h => run_graph fuel input (target :: stack') memo h
              | Raise e => Raise e
              | Unmodelled => Unmodelled
              end
          | _ => Raise UnpicklingError
          end
      | x75 (* SETITEMS *) =>
          match pop_mark_graph stack with
          | Some (above, target :: stack') =>
              match target with
              | SMark => Raise UnpicklingError
              | _ =>
                  match setitems_graph target (rev above) h with
                  | Ok h => run_graph fuel input (target :: stack') memo h
                  | Raise e => Raise e
                  | Unmodelled => Unmodelled
                  end
              end
          | _ => Raise UnpicklingError
          end
      | x90 (* ADDITEMS *) =>
          match pop_mark_graph stack with
          | Some ([], target :: stack') =>
              match target with
              | SMark => Raise UnpicklingError
              | _ => run_graph fuel input (target :: stack') memo h
              end
          | Some (above, target :: stack') =>
              match target with
              | SMark => Raise UnpicklingError
              | SVal (HRef r) =>
                  match h !! r with
                  | Some (HSet s) =>
                      match additems_graph s (rev above) with
                      | Ok s =>
                          run_graph fuel input (target :: stack') memo
                            (<[r := HSet s]> h)
                      | Raise e => Raise e
                      | Unmodelled => Unmodelled
                      end
                  | Some (HDict _) => Raise AttributeError
                  | None => Unmodelled
                  end
              | _ => Raise AttributeError
              end
          | _ => Raise UnpicklingError
          end
      | _ =>
          if (Byte.to_N op <? 40)%N then Raise UnpicklingError
          else Unmodelled
      end
  end.

Definition loads_graph (input : list byte) : result graph :=
  run_graph (S (length input)) input [] ∅ ∅.

End Pickle.

(** ** A cache directory to run the module on

    The directory, the store names and the worlds of the examples at the
    end of the file; they follow the unit tests of the module. *)

Module Demo.

Definition cache_dir : string := "/home/user/.local/share/coala".
Definition caching_db : string := "caching_db".
Definition changed_files_db : string := "changed_files_db".
Definition project : string := "coala_test".
Definition other_project : string := "coala_test2".
Definition unregistered : string := "coala_test3".

(** No file yet. *)
Definition fresh : world := World ∅ [].

(** [{"a.c": -1, "b.c": -1}] *)
Definition registered : gmap string pyval :=
  <["a.c" := VInt (-1)]> (<["b.c" := VInt (-1)]> ∅).

(** [project] has two registered files, of which ["a.c"] has changed;
    [other_project] has one file, run once and changed since. *)
Definition run_times : gmap string pyval :=
  <[project := VDict registered]>
    (<[other_project := VDict (<["x.c" := VInt 1600000000]> ∅)]> ∅).
Definition changes : gmap string pyval :=
  <[project := VSet {["a.c"]}]> (<[other_project := VSet {["x.c"]}]> ∅).

Definition tracked : world :=
  World
    (<[path_join cache_dir caching_db := Pickle.dumps (VDict run_times)]>
       (<[path_join cache_dir changed_files_db :=
            Pickle.dumps (VDict changes)]> ∅))
    [].

(** A file of a hundred bytes 1, which is no pickle. *)
Definition corrupted : world :=
  World (<[path_join cache_dir "corrupt_file" := repeat x01 100]> ∅) [].

(** A file with the opcodes NONE NONE NONE SETITEM STOP: unpickling it
    runs [None[None] = None]. *)
Definition ill_typed_pickle : list byte := [x4e; x4e; x4e; x73; x2e].

Definition ill_typed : world :=
  World (<[path_join cache_dir "corrupt_file" := ill_typed_pickle]> ∅) [].

(** [{"answer": 42}] *)
Definition answer : pyval := VDict (<["answer" := VInt 42]> ∅).

(** Seconds since the epoch, for the current time. *)
Definition now : Z := 1700000000.

(** A relative cache directory, with the same corrupt file. *)
Definition relative_dir : string := "cache".

Definition stranded : world :=
  World (<[path_join relative_dir "corrupt_file" := repeat x01 100]> ∅) [].

(** A pickle of the run-time store
    [d = {"x.c": -1}; {"coala_test": d, "coala_test2": d}], in which the
    two projects hold one dictionary, and which [pickle.loads] reads as
    such.  The opcodes are EMPTY_DICT, BINPUT 0, MARK, the first key,
    EMPTY_DICT, BINPUT 1, MARK, ["x.c"], -1, SETITEMS, the second key,
    BINGET 1, SETITEMS, STOP. *)
Definition one_dict_twice : list byte :=
  ([x7d; x71; x00; x28] ++ Pickle.dump_str project ++
   [x7d; x71; x01; x28] ++ Pickle.dump_str "x.c" ++ Pickle.dump_int (-1) ++
   [x75] ++ Pickle.dump_str other_project ++ [x68; x01; x75; x2e])%list.

Definition shared : world :=
  World (<[path_join cache_dir caching_db := one_dict_twice]> ∅) [].

End Demo.

(** ** The module [coalib.misc.Caching] *)

Section Caching.

(** What the module imports: the directory [get_pickle_dir(log_printer)]
    returns, the store names of [coalib.misc.Constants], and pickle. *)
Variable pickle_dir : string.
Variables caching_db changed_files_db : string.
Variable pickle_dumps : pyval -> list byte.
Variable pickle_loads : list byte -> result pyval.

(** The directory is given by an absolute path, and the two stores are
    two files of it. *)
Hypothesis pickle_dir_absolute : startswith_sep pickle_dir = true.
Hypothesis stores_distinct :
  path_join pickle_dir caching_db <> path_join pickle_dir changed_files_db.

Definition get_cache_data_path (filename : string) : string :=
  path_join pickle_dir filename.

Definition corrupted_msg : string :=
  "The caching database is corrupted and will " ++
  "be removed. Each project will be re-cached " ++
  "automatically the next time coala is run.".

Definition problem_msg (error_files : list string) (cache_dir : string)
  : string :=
  "There was a problem deleting the following " ++
  "files: " ++ String.concat ", " error_files ++ ". Please delete " ++
  "them manually from " ++ cache_dir.

(** The loop of [delete_cache_files]; it carries the two variables the
    loop assigns, [error_files] and [cache_dir]. *)
Fixpoint delete_each (files error_files : list string) (cache_dir : string)
  : M (list string * string) :=
  match files with
  | [] => ret (error_files, cache_dir)
  | file_name :: files' =>
      let file_path := get_cache_data_path file_name in
      let cache_dir := path_dirname file_path in
      let* error_files :=
        try_except
          (let* _ := os_remove file_path in ret error_files)
          [OSError]
          (ret (error_files ++ [file_name])%list) in
      delete_each files' error_files cache_dir
  end.

(** [cache_dir] is unbound before the loop; it is read only after an
    iteration has set it. *)
Definition delete_cache_files (files : list string) : M bool :=
  let* _ := warn corrupted_msg in
  let* r := delete_each files [] "" in
  let error_files := r.1 in
  let cache_dir := r.2 in
  if bool_decide (0 < length error_files)%nat then
    let* _ := warn (problem_msg error_files cache_dir) in
    ret false
  else ret true.

Definition pickle_load (filename : string) (fallback : pyval) : M pyval :=
  let filename := get_cache_data_path filename in
  let* is_file := os_path_isfile filename in
  if negb is_file then ret fallback
  else
    let* f := read_file filename in
    try_except
      (lift (pickle_loads f))
      [UnpicklingError; EOFError]
      (let* _ := delete_cache_files [filename] in ret fallback).

Definition pickle_dump (filename : string) (data : pyval) : M unit :=
  let filename := get_cache_data_path filename in
  write_file filename (pickle_dumps data).

Definition add_to_changed_files (project_dir : string)
    (changed_files : gset string) : M unit :=
  let* data := pickle_load changed_files_db (VDict ∅) in
  let* known := lift (py_contains data project_dir) in
  let* data :=
    if known : bool then
      lift (let? entry := py_getitem data project_dir in
            let? entry := py_update entry changed_files in
            py_setitem data project_dir entry)
    else
      lift (py_setitem data project_dir (VSet changed_files)) in
  pickle_dump changed_files_db data.

Definition get_last_coala_run_time (project_dir : string) : M pyval :=
  let* data := pickle_load caching_db (VDict ∅) in
  lift (py_get data project_dir VNone).

(** [for new_file in new_files: last_coala_run[new_file] = -1] *)
Fixpoint mark_new (last_coala_run : pyval) (new_files : list string)
  : result pyval :=
  match new_files with
  | [] => Ok last_coala_run
  | new_file :: new_files' =>
      let? last_coala_run :=
        py_setitem last_coala_run new_file (VInt (-1)) in
      mark_new last_coala_run new_files'
  end.

Definition add_new_files_since_last_run (project_dir : string)
    (last_coala_run : pyval) (new_files : list string) : M unit :=
  let last_coala_run :=
    match last_coala_run with VNone => VDict ∅ | _ => last_coala_run end in
  let* last_coala_run := lift (mark_new last_coala_run new_files) in
  let* data := pickle_load caching_db (VDict ∅) in
  let* data := lift (py_setitem data project_dir last_coala_run) in
  pickle_dump caching_db data.

(** The body of the loop of [update_last_coala_run_time] for one
    [file_name]; [data] is the run-time store so far. *)
Definition touch_file (current_time : Z) (project_dir : string)
    (changed_files data : pyval) (file_name : string) : result pyval :=
  let? known := py_contains changed_files project_dir in
  let? unchanged :=
    if negb known then Ok true
    else
      let? changed := py_getitem changed_files project_dir in
      let? listed := py_contains changed file_name in
      Ok (negb listed) in
  if unchanged : bool then
    let? entry := py_getitem data project_dir in
    let? entry := py_setitem entry file_name (VInt current_time) in
    py_setitem data project_dir entry
  else Ok data.

Fixpoint touch_files (current_time : Z) (project_dir : string)
    (changed_files data : pyval) (file_names : list string)
  : result pyval :=
  match file_names with
  | [] => Ok data
  | file_name :: file_names' =>
      let? data :=
        touch_file current_time project_dir changed_files data file_name in
      touch_files current_time project_dir changed_files data file_names'
  end.

(** [current_time] is what [calendar.timegm(time.gmtime())] returns. *)
Definition update_last_coala_run_time (current_time : Z)
    (project_dir : string) : M unit :=
  let* data := pickle_load caching_db (VDict ∅) in
  let* changed_files := pickle_load changed_files_db (VDict ∅) in
  let* known := lift (py_contains data project_dir) in
  if negb known then ret tt
  else
    let* entry := lift (py_getitem data project_dir) in
    let* file_names := lift (py_iter entry) in
    let* data :=
      lift (touch_files current_time project_dir changed_files data
              file_names) in
    let* changed_files :=
      lift (py_setitem changed_files project_dir (VSet ∅)) in
    let* _ := pickle_dump caching_db data in
    pickle_dump changed_files_db changed_files.

(** *** Notions used to state the properties *)

(** A value that pickle gives back as it was. *)
Definition serializable (v : pyval) : Prop :=
  pickle_loads (pickle_dumps v) = Ok v.

(** The exceptions [pickle_load] handles. *)
Definition corrupt (r : result pyval) : Prop :=
  r = Raise UnpicklingError \/ r = Raise EOFError.

Definition is_corrupt (r : result pyval) : bool :=
  match r with
  | Raise UnpicklingError | Raise EOFError => true
  | _ => false
  end.

(** What [pickle_load] returns in a world, and the world it leaves. *)
Definition stored_value (filename : string) (fallback : pyval) (w : world)
  : result pyval :=
  match fs w !! get_cache_data_path filename with
  | None => Ok fallback
  | Some content =>
      if is_corrupt (pickle_loads content) then Ok fallback
      else pickle_loads content
  end.

Definition after_load (filename : string) (w : world) : world :=
  match fs w !! get_cache_data_path filename with
  | None => w
  | Some content =>
      if is_corrupt (pickle_loads content) then
        World (delete (get_cache_data_path filename) (fs w))
          (log w ++ [corrupted_msg])
      else w
  end.

(** The names [delete_cache_files] reports: those whose file is not
    there when its turn comes. *)
Fixpoint not_removed (files : list string) (m : gmap string (list byte))
  : list string :=
  match files with
  | [] => []
  | file_name :: files' =>
      match m !! get_cache_data_path file_name with
      | Some _ => not_removed files' (delete (get_cache_data_path file_name) m)
      | None => file_name :: not_removed files' m
      end
  end.

(** The files that are left once those of [files] are removed. *)
Definition remove_all (files : list string) (m : gmap string (list byte))
  : gmap string (list byte) :=
  foldl (fun m file_name => delete (get_cache_data_path file_name) m) m files.

(** The entry [add_new_files_since_last_run] builds: every new file
    marked as never run in the prior data. *)
Definition with_new_files (prior : gmap string pyval)
    (new_files : list string) : gmap string pyval :=
  foldl (fun entry new_file => <[new_file := VInt (-1)]> entry) prior
    new_files.

(** The entry [update_last_coala_run_time] builds from [entry]: the
    loop over [file_names] gives the current time to the files that are
    not in [changed]. *)
Definition with_run_time (current_time : Z) (changed : gset string)
    (entry : gmap string pyval) (file_names : list string)
  : gmap string pyval :=
  foldl (fun entry file_name =>
           if decide (file_name ∈ changed) then entry
           else <[file_name := VInt current_time]> entry)
    entry file_names.

(** The three operations of the cache manager on a project. *)
Inductive operation :=
| RecordChangedFiles (changed_files : gset string)
| RegisterNewFiles (last_coala_run : pyval) (new_files : list string)
| AdvanceRunClock (current_time : Z).

Definition run_operation (op : operation) (project_dir : string) : M unit :=
  match op with
  | RecordChangedFiles changed_files =>
      add_to_changed_files project_dir changed_files
  | RegisterNewFiles last_coala_run new_files =>
      add_new_files_since_last_run project_dir last_coala_run new_files
  | AdvanceRunClock current_time =>
      update_last_coala_run_time current_time project_dir
  end.

(** The shape of [add_to_changed_files] and of the end of
    [add_new_files_since_last_run]: load a store, change it, dump it. *)
Definition load_modify_dump (filename : string)
    (modify : pyval -> result pyval) : M unit :=
  let* data := pickle_load filename (VDict ∅) in
  let* data := lift (modify data) in
  pickle_dump filename data.

(** *** The module on objects with identity

    The functions of the module again, on the heap: they change the
    objects that a load has built in place, as the source does, and pickle
    writes and reads a graph of objects. *)

Variable pickle_dumps_graph : graph -> list byte.
Variable pickle_loads_graph : list byte -> result graph.

(** [pickle.load(f)] *)
Definition unpickle (f : list byte) : MH hval := fun h =>
  lift (let? g := pickle_loads_graph f in graft g h).

Definition pickle_load_graph (filename : string) (fallback : hval)
  : MH hval :=
  let filename := get_cache_data_path filename in
  let+ is_file := io (os_path_isfile filename) in
  if negb is_file then hret fallback
  else
    let+ f := io (read_file filename) in
    try_except_heap
      (unpickle f)
      [UnpicklingError; EOFError]
      (let+ _ := io (delete_cache_files [filename]) in hret fallback).

Definition pickle_dump_graph (filename : string) (data : hval) : MH unit :=
  let filename := get_cache_data_path filename in
  let+ content := look (fun h => Ok (pickle_dumps_graph (Graph data h))) in
  io (write_file filename content).

Definition add_to_changed_files_graph (project_dir : string)
    (changed_files : hval) : MH unit :=
  let+ fallback := new (HDict ∅) in
  let+ data := pickle_load_graph changed_files_db fallback in
  let+ known := look (heap_contains data project_dir) in
  let+ _ :=
    if known : bool then
      let+ entry := look (heap_getitem data project_dir) in
      mutate (heap_update entry changed_files)
    else mutate (heap_setitem data project_dir changed_files) in
  pickle_dump_graph changed_files_db data.

Definition get_last_coala_run_time_graph (project_dir : string) : MH hval :=
  let+ fallback := new (HDict ∅) in
  let+ data := pickle_load_graph caching_db fallback in
  look (heap_get data project_dir HNone).

(** [for new_file in new_files: last_coala_run[new_file] = -1] *)
Fixpoint mark_new_graph (last_coala_run : hval) (new_files : list string)
    (h : heap) : result heap :=
  match new_files with
  | [] => Ok h
  | new_file :: new_files' =>
      let? h := heap_setitem last_coala_run new_file (HInt (-1)) h in
      mark_new_graph last_coala_run new_files' h
  end.

Definition add_new_files_since_last_run_graph (project_dir : string)
    (last_coala_run : hval) (new_files : list string) : MH unit :=
  let+ last_coala_run :=
    match last_coala_run with
    | HNone => new (HDict ∅)
    | _ => hret last_coala_run
    end in
  let+ _ := mutate (mark_new_graph last_coala_run new_files) in
  let+ fallback := new (HDict ∅) in
  let+ data := pickle_load_graph caching_db fallback in
  let+ _ := mutate (heap_setitem data project_dir last_coala_run) in
  pickle_dump_graph caching_db data.

(** The body of the loop of [update_last_coala_run_time] for one
    [file_name]. *)
Definition touch_file_graph (current_time : Z) (project_dir : string)
    (changed_files data : hval) (file_name : string) (h : heap)
  : result heap :=
  let? known := heap_contains changed_files project_dir h in
  let? unchanged :=
    if negb known then Ok true
    else
      let? changed := heap_getitem changed_files project_dir h in
      let? listed := heap_contains changed file_name h in
      Ok (negb listed) in
  if unchanged : bool then
    let? entry := heap_getitem data project_dir h in
    heap_setitem entry file_name (HInt current_time) h
  else Ok h.

Fixpoint touch_files_graph (current_time : Z) (project_dir : string)
    (changed_files data : hval) (file_names : list string) (h : heap)
  : result heap :=
  match file_names with
  | [] => Ok h
  | file_name :: file_names' =>
      let? h :=
        touch_file_graph current_time project_dir changed_files data
          file_name h in
      touch_files_graph current_time project_dir changed_files data
        file_names' h
  end.

Definition update_last_coala_run_time_graph (current_time : Z)
    (project_dir : string) : MH unit :=
  let+ fallback := new (HDict ∅) in
  let+ data := pickle_load_graph caching_db fallback in
  let+ fallback := new (HDict ∅) in
  let+ changed_files := pickle_load_graph changed_files_db fallback in
  let+ known := look (heap_contains data project_dir) in
  if negb known then hret tt
  else
    let+ entry := look (heap_getitem data project_dir) in
    let+ file_names := look (heap_iter entry) in
    let+ _ :=
      mutate (touch_files_graph current_time project_dir changed_files data
                file_names) in
    let+ empty := new (HSet ∅) in
    let+ _ := mutate (heap_setitem changed_files project_dir empty) in
    let+ _ := pickle_dump_graph caching_db data in
    pickle_dump_graph changed_files_db changed_files.

(** The three operations, with the objects of the caller. *)
Inductive heap_operation :=
| HeapRecordChangedFiles (changed_files : hval)
| HeapRegisterNewFiles (last_coala_run : hval) (new_files : list string)
| HeapAdvanceRunClock (current_time : Z).

Definition run_heap_operation (op : heap_operation) (project_dir : string)
  : MH unit :=
  match op with
  | HeapRecordChangedFiles changed_files =>
      add_to_changed_files_graph project_dir changed_files
  | HeapRegisterNewFiles last_coala_run new_files =>
      add_new_files_since_last_run_graph project_dir last_coala_run new_files
  | HeapAdvanceRunClock current_time =>
      update_last_coala_run_time_graph current_time project_dir
  end.

(** *** Notions used to state what an operation leaves of a project *)

(** The objects a value is made of. *)
Inductive reach (h : heap) : hval -> ref -> Prop :=
| reach_here r o : h !! r = Some o -> reach h (HRef r) r
| reach_step r d k v r' :
    h !! r = Some (HDict d) -> d !! k = Some v -> reach h v r' ->
    reach h (HRef r) r'.

(** In the store [g] the entry of [project_dir] is an object of its own:
    it is not the store itself, and neither it nor the store is among the
    objects the entry of [other] is made of. *)
Definition apart (project_dir other : string) (g : graph) : Prop :=
  forall s d,
    root g = HRef s -> objects g !! s = Some (HDict d) ->
    d !! project_dir <> Some (HRef s)
    /\ forall entry,
         d !! other = Some entry ->
         ~ reach (objects g) entry s
         /\ forall e,
              d !! project_dir = Some (HRef e) ->
              ~ reach (objects g) entry e.

(** A check that implies [apart], for the stores whose entries are sets
    of strings and dictionaries of integers: the entry of [other] holds
    no reference, and it is neither the store nor the entry of
    [project_dir]. *)
Definition is_ref (v : hval) : bool :=
  match v with
  | HRef _ => true
  | HNone | HInt _ => false
  end.

Definition flat (h : heap) (v : hval) : bool :=
  match v with
  | HRef r =>
      match h !! r with
      | Some (HDict d) =>
          forallb (fun v' => negb (is_ref v')) (map_to_list d).*2
      | Some (HSet _) | None => true
      end
  | HNone | HInt _ => true
  end.

Definition apart_flat (project_dir other : string) (g : graph) : bool :=
  match root g with
  | HRef s =>
      match objects g !! s with
      | Some (HDict d) =>
          negb (bool_decide (d !! project_dir = Some (HRef s)))
          && match d !! other with
             | Some entry =>
                 flat (objects g) entry
                 && negb (bool_decide (entry = HRef s))
                 && negb (bool_decide (d !! project_dir = Some entry))
             | None => true
             end
      | Some (HSet _) | None => true
      end
  | HNone | HInt _ => true
  end.

(** The store that [pickle_load] builds from the file [filename], called
    with [{}] for the fallback on the heap [h]. *)
Definition loaded_graph (filename : string) (h : heap) (w : world)
  : result graph :=
  let fallback := heap_new (HDict ∅) h in
  let? loaded := (pickle_load_graph filename fallback.1 fallback.2 w).1 in
  Ok (Graph loaded.1 loaded.2).

(** The store [after] has for [other] what the store [before] has: the
    same value under the key, and every object this value is made of is
    what it was. *)
Definition project_kept (other : string) (before after : graph) : Prop :=
  exists s d d',
    root before = HRef s /\ root after = HRef s
    /\ objects before !! s = Some (HDict d)
    /\ objects after !! s = Some (HDict d')
    /\ d' !! other = d !! other
    /\ forall entry r,
         d !! other = Some entry -> reach (objects before) entry r ->
         objects after !! r = objects before !! r.

Definition is_corrupt_graph (r : result graph) : bool :=
  match r with
  | Raise UnpicklingError | Raise EOFError => true
  | _ => false
  end.

(** The store file is in [w'] what it was in [w], or it was corrupt and
    is gone. *)
Definition store_left (filename : string) (w w' : world) : Prop :=
  let path := get_cache_data_path filename in
  fs w' !! path = fs w !! path
  \/ (fs w' !! path = None
      /\ exists content,
           fs w !! path = Some content
           /\ is_corrupt_graph (pickle_loads_graph content) = true).

(** The state of project [other] in the store [filename] is in [w'] what
    it was in [w]: the store file is left; or it is the pickle of a store
    that has for [other] what the store loaded in [w] had. *)
Definition entry_kept_graph (filename other : string) (w w' : world)
  : Prop :=
  store_left filename w w'
  \/ (exists h before after,
        loaded_graph filename h w = Ok before
        /\ fs w' !! get_cache_data_path filename =
             Some (pickle_dumps_graph after)
        /\ project_kept other before after).

(** The store file [filename] holds no object that the entries of
    [project_dir] and [other] share. *)
Definition unshared (filename project_dir other : string) (w : world)
  : Prop :=
  forall content g,
    fs w !! get_cache_data_path filename = Some content ->
    pickle_loads_graph content = Ok g ->
    apart project_dir other g.

(** What [get_last_coala_run_time] returns for a project, when it is an
    object. *)
Definition run_times_of (project_dir : string) (w : world) : option hobj :=
  match get_last_coala_run_time_graph project_dir ∅ w with
  | (Ok (HRef r, h), _) => h !! r
  | _ => None
  end.

(** What [pickle_load_graph] returns on a heap and in a world, and the
    world it leaves. *)
Definition stored_graph (filename : string) (fallback : hval) (h : heap)
    (w : world) : result (hval * heap) :=
  match fs w !! get_cache_data_path filename with
  | None => Ok (fallback, h)
  | Some content =>
      if is_corrupt_graph (pickle_loads_graph content) then Ok (fallback, h)
      else let? g := pickle_loads_graph content in graft g h
  end.

Definition after_load_graph (filename : string) (w : world) : world :=
  match fs w !! get_cache_data_path filename with
  | None => w
  | Some content =>
      if is_corrupt_graph (pickle_loads_graph content) then
        World (delete (get_cache_data_path filename) (fs w))
          (log w ++ [corrupted_msg])
      else w
  end.

(** *** Paths *)

Lemma startswith_sep_app a b :
  startswith_sep a = true -> startswith_sep (a ++ b) = true.
Proof. destruct a; [done | by simpl]. Qed.

Lemma path_join_absolute a b :
  startswith_sep a = true -> startswith_sep (path_join a b) = true.
Proof.
  intros Ha. unfold path_join.
  destruct (startswith_sep b) eqn:Hb; [done |].
  destruct (_ || _); by apply startswith_sep_app.
Qed.

Lemma path_join_onto_absolute a b :
  startswith_sep b = true -> path_join a b = b.
Proof. intros Hb. unfold path_join. by rewrite Hb. Qed.

(** *** The monad *)

Lemma bind_Ok {A B} (m : M A) (f : A -> M B) w a w1 :
  m w = (Ok a, w1) -> bind m f w = f a w1.
Proof. intros H. unfold bind. by rewrite H. Qed.

Lemma bind_Raise {A B} (m : M A) (f : A -> M B) w e w1 :
  m w = (Raise e, w1) -> bind m f w = (Raise e, w1).
Proof. intros H. unfold bind. by rewrite H. Qed.

Lemma bind_Unmodelled {A B} (m : M A) (f : A -> M B) w w1 :
  m w = (Unmodelled, w1) -> bind m f w = (Unmodelled, w1).
Proof. intros H. unfold bind. by rewrite H. Qed.

Lemma try_except_Ok {A} (body handler : M A) classes w a w1 :
  body w = (Ok a, w1) -> try_except body classes handler w = (Ok a, w1).
Proof. intros H. unfold try_except. by rewrite H. Qed.

Lemma try_except_caught {A} (body handler : M A) classes w e w1 :
  body w = (Raise e, w1) -> e ∈ classes ->
  try_except body classes handler w = handler w1.
Proof.
  intros H He. unfold try_except. by rewrite H, bool_decide_true.
Qed.

Lemma try_except_uncaught {A} (body handler : M A) classes w e w1 :
  body w = (Raise e, w1) -> e ∉ classes ->
  try_except body classes handler w = (Raise e, w1).
Proof.
  intros H He. unfold try_except. by rewrite H, bool_decide_false.
Qed.

Lemma world_eta w : World (fs w) (log w) = w.
Proof. by destruct w. Qed.

(** *** [delete_cache_files] *)

Lemma try_remove path (error_files : list string) (file_name : string) w :
  try_except (let* _ := os_remove path in ret error_files) [OSError]
    (ret (error_files ++ [file_name])%list) w =
  match fs w !! path with
  | Some _ => (Ok error_files, World (delete path (fs w)) (log w))
  | None => (Ok (error_files ++ [file_name])%list, w)
  end.
Proof.
  unfold try_except, bind, os_remove, ret.
  destruct (fs w !! path); [done |].
  rewrite bool_decide_true; [done | by left].
Qed.

Lemma delete_each_run files : forall error_files cache_dir w,
  exists cache_dir',
    delete_each files error_files cache_dir w =
      (Ok ((error_files ++ not_removed files (fs w))%list, cache_dir'),
       World (remove_all files (fs w)) (log w))
    /\ (forall file_name, last files = Some file_name ->
          cache_dir' = path_dirname (get_cache_data_path file_name)).
Proof.
  induction files as [| file_name files IH]; intros error_files cache_dir w.
  - exists cache_dir. split; [| done].
    simpl. unfold ret. by rewrite app_nil_r, world_eta.
  - cbn [delete_each not_removed remove_all foldl].
    unfold bind at 1. rewrite try_remove.
    destruct (fs w !! get_cache_data_path file_name) as [c |] eqn:Hf.
    + destruct (IH error_files
                  (path_dirname (get_cache_data_path file_name))
                  (World (delete (get_cache_data_path file_name) (fs w))
                     (log w))) as (cd & Hrun & Hlast).
      rewrite Hrun. exists cd. split; [done |].
      intros f Hf'. destruct files as [| f' files]; [| by apply Hlast].
      simpl in Hrun, Hf'. unfold ret in Hrun. by simplify_eq.
    + destruct (IH (error_files ++ [file_name])%list
                  (path_dirname (get_cache_data_path file_name)) w)
        as (cd & Hrun & Hlast).
      rewrite Hrun. exists cd.
      split; [by rewrite <- app_assoc, (delete_id _ _ Hf) |].
      intros f Hf'. destruct files as [| f' files]; [| by apply Hlast].
      simpl in Hrun, Hf'. unfold ret in Hrun. by simplify_eq.
Qed.

Lemma remove_all_lookup files : forall m path,
  remove_all files m !! path =
    if decide (path ∈ get_cache_data_path <$> files) then None
    else m !! path.
Proof.
  induction files as [| file_name files IH]; intros m path; [done |].
  unfold remove_all in *. cbn [foldl fmap list_fmap]. rewrite IH.
  destruct (decide (path ∈ get_cache_data_path <$> files)) as [Hin | Hin].
  - rewrite decide_True; [done | by right].
  - destruct (decide (path = get_cache_data_path file_name)) as [-> | Hne].
    + rewrite decide_True; [by rewrite lookup_delete_eq | by left].
    + rewrite decide_False, lookup_delete_ne; [done.. |].
      by intros [? | ?]%elem_of_cons.
Qed.

Lemma not_removed_nil files : forall m,
  not_removed files m = [] <->
  NoDup (get_cache_data_path <$> files) /\
  forall file_name, file_name ∈ files ->
    is_Some (m !! get_cache_data_path file_name).
Proof.
  induction files as [| file_name files IH]; intros m.
  - split; [| done]. intros _. split; [constructor |].
    by intros f Hf%elem_of_nil.
  - cbn [not_removed fmap list_fmap].
    destruct (m !! get_cache_data_path file_name) as [c |] eqn:Hm.
    + rewrite IH, NoDup_cons. split.
      * intros [Hnd Hall]. split; [split; [| done] |].
        -- intros (g & Hg & Hin)%list_elem_of_fmap.
           destruct (Hall g Hin) as [c' Hc'].
           by rewrite Hg, lookup_delete_eq in Hc'.
        -- intros g [-> | Hin]%elem_of_cons; [by eexists |].
           destruct (Hall g Hin) as [c' Hc'].
           apply lookup_delete_Some in Hc' as [_ Hc']. by eexists.
      * intros [[Hnotin Hnd] Hall]. split; [done |].
        intros g Hin. destruct (Hall g) as [c' Hc']; [by right |].
        exists c'. rewrite lookup_delete_ne; [done |].
        intros Heq. apply Hnotin, list_elem_of_fmap. by exists g.
    + split; [done |]. intros [_ Hall].
      destruct (Hall file_name) as [c Hc]; [by left |]. congruence.
Qed.

Lemma delete_cache_files_present file_name content w :
  fs w !! get_cache_data_path file_name = Some content ->
  delete_cache_files [file_name] w =
    (Ok true,
     World (delete (get_cache_data_path file_name) (fs w))
       (log w ++ [corrupted_msg])).
Proof.
  intros Hfile.
  unfold delete_cache_files, bind at 1, warn.
  destruct (delete_each_run [file_name] [] ""
              (World (fs w) (log w ++ [corrupted_msg])))
    as (cd & Hrun & _).
  unfold bind at 1. rewrite Hrun. cbn [fst snd fs log app not_removed].
  rewrite Hfile. by rewrite bool_decide_false by (simpl; lia).
Qed.

(** *** [pickle_load] and [pickle_dump] *)

Lemma get_cache_data_path_twice filename :
  get_cache_data_path (get_cache_data_path filename) =
  get_cache_data_path filename.
Proof.
  unfold get_cache_data_path.
  by apply path_join_onto_absolute, path_join_absolute.
Qed.

Lemma pickle_load_absent filename fallback w :
  fs w !! get_cache_data_path filename = None ->
  pickle_load filename fallback w = (Ok fallback, w).
Proof.
  intros Hfile. unfold pickle_load, bind, os_path_isfile.
  rewrite Hfile, bool_decide_false; [done |]. by intros [? ?].
Qed.

Lemma pickle_load_present filename fallback w content :
  fs w !! get_cache_data_path filename = Some content ->
  pickle_load filename fallback w =
    try_except (lift (pickle_loads content)) [UnpicklingError; EOFError]
      (let* _ := delete_cache_files [get_cache_data_path filename] in
       ret fallback) w.
Proof.
  intros Hfile. unfold pickle_load, bind at 1, os_path_isfile.
  rewrite Hfile, bool_decide_true by by eexists.
  cbn [negb]. unfold bind at 1, read_file. by rewrite Hfile.
Qed.

Lemma pickle_load_decoded filename fallback w content v :
  fs w !! get_cache_data_path filename = Some content ->
  pickle_loads content = Ok v ->
  pickle_load filename fallback w = (Ok v, w).
Proof.
  intros Hfile Hv. rewrite (pickle_load_present _ _ _ _ Hfile).
  unfold try_except, lift. by rewrite Hv.
Qed.

Lemma pickle_load_corrupt filename fallback w content :
  fs w !! get_cache_data_path filename = Some content ->
  corrupt (pickle_loads content) ->
  pickle_load filename fallback w =
    (Ok fallback,
     World (delete (get_cache_data_path filename) (fs w))
       (log w ++ [corrupted_msg])).
Proof.
  intros Hfile Hc. rewrite (pickle_load_present _ _ _ _ Hfile).
  assert (exists e, pickle_loads content = Raise e /\
                    e ∈ [UnpicklingError; EOFError]) as (e & He & Hin).
  { destruct Hc as [Hc | Hc]; eexists; (split; [exact Hc |]);
      [by left | by right; left]. }
  erewrite try_except_caught; [| unfold lift; by rewrite He | done].
  unfold bind.
  erewrite delete_cache_files_present;
    rewrite get_cache_data_path_twice; done.
Qed.

Lemma pickle_load_raises filename fallback w content e :
  fs w !! get_cache_data_path filename = Some content ->
  pickle_loads content = Raise e ->
  e <> UnpicklingError -> e <> EOFError ->
  pickle_load filename fallback w = (Raise e, w).
Proof.
  intros Hfile He Hne1 Hne2. rewrite (pickle_load_present _ _ _ _ Hfile).
  eapply try_except_uncaught; [unfold lift; by rewrite He |].
  by intros [-> | [-> | ?%elem_of_nil]%elem_of_cons]%elem_of_cons.
Qed.

Lemma pickle_load_unmodelled filename fallback w content :
  fs w !! get_cache_data_path filename = Some content ->
  pickle_loads content = Unmodelled ->
  pickle_load filename fallback w = (Unmodelled, w).
Proof.
  intros Hfile Hu. rewrite (pickle_load_present _ _ _ _ Hfile).
  unfold try_except, lift. by rewrite Hu.
Qed.

Lemma pickle_dump_run filename data w :
  pickle_dump filename data w =
    (Ok tt,
     World (<[get_cache_data_path filename := pickle_dumps data]> (fs w))
       (log w)).
Proof. done. Qed.

(** C7. Saving a serializable value under a name and loading that name
    gives the value back, whatever the fallback. *)
Theorem pickle_dump_then_load filename data fallback w :
  serializable data ->
  (let* _ := pickle_dump filename data in pickle_load filename fallback) w =
    (Ok data,
     World (<[get_cache_data_path filename := pickle_dumps data]> (fs w))
       (log w)).
Proof.
  intros Hdata. unfold bind. rewrite pickle_dump_run.
  eapply pickle_load_decoded; [| exact Hdata].
  cbn [fs]. apply lookup_insert_eq.
Qed.

(** C8, amended. When the content of a store file makes the unpickler
    raise [UnpicklingError] or [EOFError], [pickle_load] returns the
    fallback, warns, and the file no longer exists afterwards while every
    other file is kept; any other exception of the unpickler reaches the
    caller and the file stays. *)
Theorem pickle_load_recovers_from_corruption filename fallback w content :
  fs w !! get_cache_data_path filename = Some content ->
  (corrupt (pickle_loads content) ->
   exists w',
     pickle_load filename fallback w = (Ok fallback, w')
     /\ fs w' !! get_cache_data_path filename = None
     /\ (forall path, path <> get_cache_data_path filename ->
           fs w' !! path = fs w !! path)
     /\ log w' = (log w ++ [corrupted_msg])%list)
  /\ (forall e,
        pickle_loads content = Raise e ->
        e <> UnpicklingError -> e <> EOFError ->
        pickle_load filename fallback w = (Raise e, w)).
Proof.
  intros Hfile. split.
  - intros Hc. eexists. split; [by eapply pickle_load_corrupt |].
    cbn [fs log]. split; [apply lookup_delete_eq |]. split; [| done].
    intros path Hne. by apply lookup_delete_ne.
  - intros e He Hne1 Hne2. by eapply pickle_load_raises.
Qed.

(** *** The run-time store *)

Lemma get_last_coala_run_time_run project_dir w data w1 :
  pickle_load caching_db (VDict ∅) w = (Ok (VDict data), w1) ->
  get_last_coala_run_time project_dir w =
    (Ok (default VNone (data !! project_dir)), w1).
Proof.
  intros Hload. unfold get_last_coala_run_time, bind. by rewrite Hload.
Qed.

(** C5. [get_last_coala_run_time] returns the entry of the project when
    the run-time store has one (an empty mapping when the entry is
    empty), and [None] when the project is not in the store. *)
Theorem get_last_coala_run_time_entry_or_None project_dir w data w1 :
  pickle_load caching_db (VDict ∅) w = (Ok (VDict data), w1) ->
  (forall entry,
     data !! project_dir = Some entry ->
     get_last_coala_run_time project_dir w = (Ok entry, w1))
  /\ (data !! project_dir = None ->
      get_last_coala_run_time project_dir w = (Ok VNone, w1)
      /\ VNone <> VDict ∅).
Proof.
  intros Hload.
  rewrite (get_last_coala_run_time_run _ _ _ _ Hload).
  split; [by intros entry -> | by intros ->].
Qed.

Lemma mark_new_dict new_files : forall prior,
  mark_new (VDict prior) new_files =
    Ok (VDict (with_new_files prior new_files)).
Proof.
  induction new_files as [| new_file new_files IH]; intros prior; [done |].
  cbn [mark_new py_setitem result_bind]. by rewrite IH.
Qed.

Lemma with_new_files_lookup new_files : forall prior file_name,
  with_new_files prior new_files !! file_name =
    if decide (file_name ∈ new_files) then Some (VInt (-1))
    else prior !! file_name.
Proof.
  induction new_files as [| new_file new_files IH]; intros prior file_name.
  - by rewrite decide_False by apply not_elem_of_nil.
  - unfold with_new_files in *. cbn [foldl]. rewrite IH.
    destruct (decide (file_name ∈ new_files)) as [Hin | Hin].
    + rewrite decide_True; [done | by right].
    + destruct (decide (file_name = new_file)) as [-> | Hne].
      * rewrite decide_True; [by rewrite lookup_insert_eq | by left].
      * rewrite decide_False, lookup_insert_ne; [done.. |].
        by intros [? | ?]%elem_of_cons.
Qed.

Lemma add_new_files_since_last_run_run project_dir prior new_files w data w1 :
  pickle_load caching_db (VDict ∅) w = (Ok (VDict data), w1) ->
  add_new_files_since_last_run project_dir
    (match prior with Some d => VDict d | None => VNone end) new_files w =
    (Ok tt,
     World
       (<[get_cache_data_path caching_db :=
            pickle_dumps
              (VDict (<[project_dir :=
                          VDict (with_new_files (default ∅ prior) new_files)]>
                        data))]> (fs w1))
       (log w1)).
Proof.
  intros Hload. unfold add_new_files_since_last_run.
  destruct prior as [prior |]; cbn [default];
    rewrite mark_new_dict; unfold bind, lift; by rewrite Hload.
Qed.

Lemma get_last_coala_run_time_written project_dir entry data files messages :
  serializable (VDict (<[project_dir := entry]> data)) ->
  let w' :=
    World (<[get_cache_data_path caching_db :=
               pickle_dumps (VDict (<[project_dir := entry]> data))]> files)
      messages in
  get_last_coala_run_time project_dir w' = (Ok entry, w').
Proof.
  intros Hser w'.
  erewrite get_last_coala_run_time_run.
  - by rewrite lookup_insert_eq.
  - eapply pickle_load_decoded; [apply lookup_insert_eq | exact Hser].
Qed.

(** C4. [add_new_files_since_last_run] writes, as the entry of the
    project in the run-time store, the prior data (empty when it is
    [None]) in which every new file has the time -1 and every other file
    the time it had; the entry replaces the one the store held, the other
    projects are written back as read.  When pickle gives the written
    store back, [get_last_coala_run_time] then returns this entry. *)
Theorem add_new_files_since_last_run_persists
    project_dir prior new_files w data w1 :
  pickle_load caching_db (VDict ∅) w = (Ok (VDict data), w1) ->
  let last_coala_run :=
    match prior with Some d => VDict d | None => VNone end in
  let entry := with_new_files (default ∅ prior) new_files in
  let store := VDict (<[project_dir := VDict entry]> data) in
  let w' :=
    World (<[get_cache_data_path caching_db := pickle_dumps store]> (fs w1))
      (log w1) in
  add_new_files_since_last_run project_dir last_coala_run new_files w =
    (Ok tt, w')
  /\ (forall file_name,
        file_name ∈ new_files -> entry !! file_name = Some (VInt (-1)))
  /\ (forall file_name,
        file_name ∉ new_files ->
        entry !! file_name = default ∅ prior !! file_name)
  /\ (serializable store ->
      get_last_coala_run_time project_dir w' = (Ok (VDict entry), w')).
Proof.
  intros Hload last_coala_run entry store w'.
  split; [by apply add_new_files_since_last_run_run |].
  split; [| split].
  - intros f Hin. unfold entry.
    by rewrite with_new_files_lookup, decide_True.
  - intros f Hin. unfold entry.
    by rewrite with_new_files_lookup, decide_False.
  - intros Hser. by apply get_last_coala_run_time_written.
Qed.

(** C10. A file that the prior data tracks with a run time other than -1
    and that is listed among the new files is written with the time -1:
    the recorded run time is lost. *)
Theorem add_new_files_since_last_run_resets_tracked_file
    project_dir prior new_files file_name time w data w1 :
  pickle_load caching_db (VDict ∅) w = (Ok (VDict data), w1) ->
  prior !! file_name = Some (VInt time) ->
  time <> -1 ->
  file_name ∈ new_files ->
  let entry := with_new_files prior new_files in
  let store := VDict (<[project_dir := VDict entry]> data) in
  exists w',
    add_new_files_since_last_run project_dir (VDict prior) new_files w =
      (Ok tt, w')
    /\ fs w' !! get_cache_data_path caching_db = Some (pickle_dumps store)
    /\ entry !! file_name = Some (VInt (-1))
    /\ entry !! file_name <> prior !! file_name
    /\ (serializable store ->
        get_last_coala_run_time project_dir w' = (Ok (VDict entry), w')).
Proof.
  intros Hload Hprior Htime Hin entry store. eexists.
  split; [exact (add_new_files_since_last_run_run project_dir (Some prior)
                   new_files w data w1 Hload) |].
  cbn [fs default]. split; [apply lookup_insert_eq |].
  unfold entry. rewrite with_new_files_lookup, decide_True by done.
  split; [done |]. split; [rewrite Hprior; congruence |].
  intros Hser. by apply get_last_coala_run_time_written.
Qed.

(** *** [update_last_coala_run_time] *)

Lemma with_run_time_lookup now changed file_names : forall entry file_name,
  with_run_time now changed entry file_names !! file_name =
    if decide (file_name ∈ file_names /\ file_name ∉ changed)
    then Some (VInt now) else entry !! file_name.
Proof.
  induction file_names as [| f file_names IH]; intros entry file_name.
  - rewrite decide_False; [done |]. by intros [?%elem_of_nil _].
  - unfold with_run_time in *. cbn [foldl]. rewrite IH.
    destruct (decide (file_name ∈ file_names /\ file_name ∉ changed))
      as [[Hin Hch] | Hnot];
      destruct (decide (file_name ∈ f :: file_names /\ file_name ∉ changed))
      as [[Hin' Hch'] | Hnot']; try done.
    + destruct Hnot'. split; [by right | done].
    + apply elem_of_cons in Hin' as [-> | Hin']; [| by destruct Hnot].
      rewrite decide_False by done. apply lookup_insert_eq.
    + destruct (decide (f ∈ changed)) as [Hf | Hf]; [done |].
      apply lookup_insert_ne. intros ->. apply Hnot'. split; [by left | done].
Qed.

Lemma touch_file_run now project_dir ch changed data entry file_name :
  ch !! project_dir = VSet <$> changed ->
  touch_file now project_dir (VDict ch)
    (VDict (<[project_dir := VDict entry]> data)) file_name =
    Ok (VDict (<[project_dir :=
                  VDict (with_run_time now (default ∅ changed) entry
                           [file_name])]> data)).
Proof.
  intros Hch. unfold touch_file, with_run_time.
  cbn [py_contains py_getitem result_bind foldl]. rewrite Hch.
  destruct changed as [changed |];
    cbn [fmap option_fmap option_map default from_option id].
  - rewrite bool_decide_true by by eexists.
    cbn [negb py_contains py_getitem result_bind].
    unfold id. case_bool_decide; case_decide; try done. cbn [negb].
    rewrite lookup_insert_eq. cbn [py_setitem result_bind].
    by rewrite insert_insert_eq.
  - rewrite bool_decide_false by (by intros [? ?]).
    cbn [negb]. rewrite lookup_insert_eq. cbn [py_setitem result_bind].
    rewrite decide_False by apply not_elem_of_empty.
    by rewrite insert_insert_eq.
Qed.

Lemma touch_files_run now project_dir ch changed data file_names :
  ch !! project_dir = VSet <$> changed ->
  forall entry,
    touch_files now project_dir (VDict ch)
      (VDict (<[project_dir := VDict entry]> data)) file_names =
      Ok (VDict (<[project_dir :=
                    VDict (with_run_time now (default ∅ changed) entry
                             file_names)]> data)).
Proof.
  intros Hch. induction file_names as [| f file_names IH]; intros entry.
  - done.
  - cbn [touch_files]. rewrite (touch_file_run _ _ _ _ _ _ _ Hch).
    cbn [result_bind]. by rewrite IH.
Qed.

Lemma update_last_coala_run_time_run
    now project_dir w data w1 ch w2 entry changed :
  pickle_load caching_db (VDict ∅) w = (Ok (VDict data), w1) ->
  pickle_load changed_files_db (VDict ∅) w1 = (Ok (VDict ch), w2) ->
  data !! project_dir = Some (VDict entry) ->
  ch !! project_dir = VSet <$> changed ->
  update_last_coala_run_time now project_dir w =
    (Ok tt,
     World
       (<[get_cache_data_path changed_files_db :=
            pickle_dumps (VDict (<[project_dir := VSet ∅]> ch))]>
          (<[get_cache_data_path caching_db :=
               pickle_dumps
                 (VDict (<[project_dir :=
                             VDict (with_run_time now (default ∅ changed)
                                      entry (map_to_list entry).*1)]>
                           data))]> (fs w2)))
       (log w2)).
Proof.
  intros Hdata Hchanged Hentry Hch.
  unfold update_last_coala_run_time.
  rewrite (bind_Ok _ _ _ _ _ Hdata), (bind_Ok _ _ _ _ _ Hchanged).
  unfold bind at 1, lift at 1. cbn [py_contains].
  rewrite bool_decide_true by by eexists.
  cbn [negb]. unfold bind at 1, lift at 1. cbn [py_getitem].
  rewrite Hentry. unfold bind at 1, lift at 1. cbn [py_iter].
  rewrite <- (insert_id data project_dir (VDict entry)) at 1 by done.
  rewrite (touch_files_run _ _ _ _ _ _ Hch).
  unfold bind, lift. cbn [py_setitem]. by rewrite !pickle_dump_run.
Qed.

(** *** What a load returns and leaves *)

Lemma is_corrupt_true r : is_corrupt r = true <-> corrupt r.
Proof.
  unfold corrupt. split.
  - destruct r as [v | [] |]; simpl; auto; discriminate.
  - by intros [-> | ->].
Qed.

Lemma pickle_load_eq filename fallback w :
  pickle_load filename fallback w =
    (stored_value filename fallback w, after_load filename w).
Proof.
  unfold stored_value, after_load.
  destruct (fs w !! get_cache_data_path filename) as [content |] eqn:Hfile.
  - destruct (is_corrupt (pickle_loads content)) eqn:Hc.
    + apply is_corrupt_true in Hc. by apply (pickle_load_corrupt _ _ _ content).
    + destruct (pickle_loads content) as [v | e |] eqn:Hr.
      * by apply (pickle_load_decoded _ _ _ content).
      * apply (pickle_load_raises _ _ _ content); [done.. | |];
          by intros ->.
      * by apply (pickle_load_unmodelled _ _ _ content).
  - by apply pickle_load_absent.
Qed.

Lemma after_load_subseteq filename w : fs (after_load filename w) ⊆ fs w.
Proof.
  unfold after_load. destruct (fs w !! _); [| done].
  destruct (is_corrupt _); [apply delete_subseteq | done].
Qed.

Lemma after_load_other filename w path :
  path <> get_cache_data_path filename ->
  fs (after_load filename w) !! path = fs w !! path.
Proof.
  intros Hne. unfold after_load. destruct (fs w !! _); [| done].
  destruct (is_corrupt _); [by apply lookup_delete_ne | done].
Qed.

Lemma after_load_same filename w :
  fs (after_load filename w) !! get_cache_data_path filename =
    fs w !! get_cache_data_path filename
  \/ fs (after_load filename w) !! get_cache_data_path filename = None
     /\ forall fallback, stored_value filename fallback w = Ok fallback.
Proof.
  unfold after_load, stored_value.
  destruct (fs w !! _) as [content |] eqn:Hfile; [| by left].
  destruct (is_corrupt _); [| by left].
  right. split; [apply lookup_delete_eq | done].
Qed.

Lemma stored_value_ext filename fallback w w0 :
  fs w0 !! get_cache_data_path filename =
    fs w !! get_cache_data_path filename ->
  stored_value filename fallback w0 = stored_value filename fallback w.
Proof. intros H. unfold stored_value. by rewrite H. Qed.

Lemma stored_value_after_load filename fallback w :
  stored_value filename fallback (after_load filename w) =
  stored_value filename fallback w.
Proof.
  destruct (after_load_same filename w) as [Heq | [Hnone Hfb]].
  - by apply stored_value_ext.
  - rewrite Hfb. unfold stored_value. by rewrite Hnone.
Qed.

Lemma after_load_file filename w content :
  fs (after_load filename w) !! get_cache_data_path filename = Some content ->
  is_corrupt (pickle_loads content) = false.
Proof.
  unfold after_load.
  destruct (fs w !! get_cache_data_path filename) as [content' |] eqn:Hfile.
  - destruct (is_corrupt (pickle_loads content')) eqn:Hc.
    + cbn [fs]. by rewrite lookup_delete_eq.
    + rewrite Hfile. by intros [= <-].
  - by rewrite Hfile.
Qed.

Lemma after_load_settled filename w w0 :
  fs w0 !! get_cache_data_path filename =
    fs (after_load filename w) !! get_cache_data_path filename ->
  after_load filename w0 = w0.
Proof.
  intros Hsame. unfold after_load at 1. rewrite Hsame.
  destruct (fs (after_load filename w) !! get_cache_data_path filename)
    as [content |] eqn:Hfile; [| done].
  by rewrite (after_load_file _ _ _ Hfile).
Qed.

Lemma after_load_sound filename w :
  (forall content,
     fs w !! get_cache_data_path filename = Some content ->
     is_corrupt (pickle_loads content) = false) ->
  after_load filename w = w.
Proof.
  intros Hsound. unfold after_load.
  destruct (fs w !! get_cache_data_path filename) as [content |]; [| done].
  by rewrite Hsound.
Qed.

Lemma caching_not_changed :
  get_cache_data_path caching_db <> get_cache_data_path changed_files_db.
Proof. exact stores_distinct. Qed.

(** C2. For a project that the run-time store does not hold,
    [update_last_coala_run_time] stops after loading the two stores: it
    writes no file (every file left is a file that was there, with its
    content), the project still has no entry, and the changed-files store
    still reads as it did.  When no store file is corrupt the world is
    left exactly as it was. *)
Theorem update_last_coala_run_time_unregistered
    now project_dir w data w1 changed_files w2 :
  pickle_load caching_db (VDict ∅) w = (Ok (VDict data), w1) ->
  pickle_load changed_files_db (VDict ∅) w1 = (Ok changed_files, w2) ->
  data !! project_dir = None ->
  update_last_coala_run_time now project_dir w = (Ok tt, w2)
  /\ fs w2 ⊆ fs w
  /\ get_last_coala_run_time project_dir w2 = (Ok VNone, w2)
  /\ pickle_load changed_files_db (VDict ∅) w2 = (Ok changed_files, w2)
  /\ ((forall filename content,
         fs w !! get_cache_data_path filename = Some content ->
         is_corrupt (pickle_loads content) = false) ->
      w2 = w).
Proof.
  intros Hdata Hchanged Hentry.
  assert (Hrun : update_last_coala_run_time now project_dir w = (Ok tt, w2)).
  { unfold update_last_coala_run_time.
    rewrite (bind_Ok _ _ _ _ _ Hdata), (bind_Ok _ _ _ _ _ Hchanged).
    unfold bind, lift. cbn [py_contains].
    rewrite bool_decide_false; [done |]. rewrite Hentry. by intros [? ?]. }
  rewrite pickle_load_eq in Hdata, Hchanged.
  injection Hdata as Hdata <-. injection Hchanged as Hchanged <-.
  pose proof caching_not_changed as Hne.
  split; [done |]. split; [| split; [| split]].
  - etrans; apply after_load_subseteq.
  - rewrite (get_last_coala_run_time_run project_dir _ data
               (after_load changed_files_db (after_load caching_db w)));
      [by rewrite Hentry |].
    rewrite pickle_load_eq. f_equal.
    + rewrite <- Hdata.
      trans (stored_value caching_db (VDict ∅) (after_load caching_db w));
        [| apply stored_value_after_load].
      apply stored_value_ext. by apply after_load_other.
    + apply (after_load_settled _ w). by apply after_load_other.
  - rewrite pickle_load_eq. f_equal.
    + by rewrite stored_value_after_load.
    + by apply (after_load_settled _ (after_load caching_db w)).
  - intros Hsound.
    rewrite (after_load_sound caching_db w) by apply Hsound.
    apply after_load_sound, Hsound.
Qed.

Lemma elem_of_file_names (entry : gmap string pyval) file_name :
  file_name ∈ (map_to_list entry).*1 <-> is_Some (entry !! file_name).
Proof.
  rewrite list_elem_of_fmap. split.
  - intros ([k v] & -> & Hin%elem_of_map_to_list). by eexists.
  - intros [v Hv]. exists (file_name, v).
    split; [done | by apply elem_of_map_to_list].
Qed.

(** C1. For a project whose entry in the run-time store is [entry] and
    whose changed files are [changed] (no file when the changed-files
    store has no entry for the project), [update_last_coala_run_time]
    writes a run-time store in which every file of the entry that is not
    changed has the current time, every changed file has what it had, and
    no file is added; the other projects are written back as read. *)
Theorem update_last_coala_run_time_advances_unchanged_files
    now project_dir w data w1 ch w2 entry changed :
  pickle_load caching_db (VDict ∅) w = (Ok (VDict data), w1) ->
  pickle_load changed_files_db (VDict ∅) w1 = (Ok (VDict ch), w2) ->
  data !! project_dir = Some (VDict entry) ->
  ch !! project_dir = VSet <$> changed ->
  let entry' :=
    with_run_time now (default ∅ changed) entry (map_to_list entry).*1 in
  let store := VDict (<[project_dir := VDict entry']> data) in
  exists w',
    update_last_coala_run_time now project_dir w = (Ok tt, w')
    /\ fs w' !! get_cache_data_path caching_db = Some (pickle_dumps store)
    /\ (forall file_name time,
          entry !! file_name = Some time ->
          file_name ∉ default ∅ changed ->
          entry' !! file_name = Some (VInt now))
    /\ (forall file_name,
          file_name ∈ default ∅ changed ->
          entry' !! file_name = entry !! file_name)
    /\ (forall file_name,
          entry !! file_name = None -> entry' !! file_name = None)
    /\ (serializable store ->
        get_last_coala_run_time project_dir w' = (Ok (VDict entry'), w')).
Proof.
  intros Hdata Hchanged Hentry Hch entry' store.
  pose proof caching_not_changed as Hne.
  eexists.
  split; [by eapply update_last_coala_run_time_run |].
  cbn [fs]. unfold entry'. split; [| split; [| split; [| split]]].
  - rewrite lookup_insert_ne by done. apply lookup_insert_eq.
  - intros f t Hf Hnot. rewrite with_run_time_lookup, decide_True; [done |].
    split; [| done]. apply elem_of_file_names. by eexists.
  - intros f Hin. rewrite with_run_time_lookup, decide_False; [done |].
    by intros [_ ?].
  - intros f Hf. rewrite with_run_time_lookup, decide_False; [done |].
    intros [[t Ht]%elem_of_file_names _]. congruence.
  - intros Hser.
    erewrite get_last_coala_run_time_run; [by rewrite lookup_insert_eq |].
    eapply pickle_load_decoded; [| exact Hser].
    cbn [fs]. rewrite lookup_insert_ne by done. apply lookup_insert_eq.
Qed.

(** C3. For a project that has an entry in the run-time store, once
    [update_last_coala_run_time] has returned the changed-files store on
    disk holds the empty set for the project (and what it held for the
    others); a load of the store then gives this back when pickle does. *)
Theorem update_last_coala_run_time_consumes_changes
    now project_dir w data w1 ch w2 entry changed :
  pickle_load caching_db (VDict ∅) w = (Ok (VDict data), w1) ->
  pickle_load changed_files_db (VDict ∅) w1 = (Ok (VDict ch), w2) ->
  data !! project_dir = Some (VDict entry) ->
  ch !! project_dir = VSet <$> changed ->
  let ch' := <[project_dir := VSet ∅]> ch in
  exists w',
    update_last_coala_run_time now project_dir w = (Ok tt, w')
    /\ fs w' !! get_cache_data_path changed_files_db =
         Some (pickle_dumps (VDict ch'))
    /\ ch' !! project_dir = Some (VSet ∅)
    /\ (forall other, other <> project_dir -> ch' !! other = ch !! other)
    /\ (serializable (VDict ch') ->
        pickle_load changed_files_db (VDict ∅) w' = (Ok (VDict ch'), w')).
Proof.
  intros Hdata Hchanged Hentry Hch ch'. eexists.
  split; [by eapply update_last_coala_run_time_run |].
  cbn [fs]. split; [apply lookup_insert_eq |].
  split; [apply lookup_insert_eq |]. split.
  - intros other Hother. by apply lookup_insert_ne.
  - intros Hser. eapply pickle_load_decoded; [| exact Hser].
    cbn [fs]. apply lookup_insert_eq.
Qed.

(** *** The shape of the operations *)

Lemma add_to_changed_files_shape project_dir changed_files w :
  add_to_changed_files project_dir changed_files w =
  load_modify_dump changed_files_db
    (fun data =>
       let? known := py_contains data project_dir in
       if known : bool then
         let? entry := py_getitem data project_dir in
         let? entry := py_update entry changed_files in
         py_setitem data project_dir entry
       else py_setitem data project_dir (VSet changed_files)) w.
Proof.
  unfold add_to_changed_files, load_modify_dump, bind, lift.
  destruct (pickle_load changed_files_db (VDict ∅) w) as [[data | e |] w1];
    [| done..].
  by destruct (py_contains data project_dir) as [[|] | e |].
Qed.

Lemma touch_file_shape now project_dir changed_files store file_name v :
  touch_file now project_dir changed_files (VDict store) file_name = Ok v ->
  v = VDict store \/ exists entry, v = VDict (<[project_dir := entry]> store).
Proof.
  unfold touch_file. intros Hv.
  destruct (py_contains changed_files project_dir) as [known | |];
    [| done..].
  cbn [result_bind] in Hv.
  destruct (if negb known then Ok true
            else let? changed := py_getitem changed_files project_dir in
                 let? listed := py_contains changed file_name in
                 Ok (negb listed)) as [[|] | |]; cbn [result_bind] in Hv;
    [| left; by injection Hv | done..].
  destruct (py_getitem (VDict store) project_dir) as [entry | |];
    [| done..].
  cbn [result_bind] in Hv.
  destruct (py_setitem entry file_name (VInt now)) as [entry' | |];
    [| done..].
  cbn [result_bind py_setitem] in Hv. right. exists entry'.
  by injection Hv.
Qed.

Lemma touch_files_shape now project_dir changed_files store file_names :
  forall entry v,
    touch_files now project_dir changed_files
      (VDict (<[project_dir := entry]> store)) file_names = Ok v ->
    exists entry', v = VDict (<[project_dir := entry']> store).
Proof.
  induction file_names as [| f file_names IH]; intros entry v Hv.
  - injection Hv as <-. by eexists.
  - cbn [touch_files] in Hv.
    destruct (touch_file now project_dir changed_files
                (VDict (<[project_dir := entry]> store)) f)
      as [v1 | |] eqn:Hv1; [| done..].
    cbn [result_bind] in Hv.
    apply touch_file_shape in Hv1 as [-> | [entry1 ->]].
    + by eapply IH.
    + rewrite insert_insert_eq in Hv. by eapply IH.
Qed.

(** *** More on [pickle_load] and [delete_cache_files] *)

Lemma delete_cache_files_absent file_name w :
  fs w !! get_cache_data_path file_name = None ->
  delete_cache_files [file_name] w =
    (Ok false,
     World (fs w)
       (log w ++
        [corrupted_msg;
         problem_msg [file_name]
           (path_dirname (get_cache_data_path file_name))])).
Proof.
  intros Habs. unfold delete_cache_files, bind at 1, warn.
  destruct (delete_each_run [file_name] [] ""
              (World (fs w) (log w ++ [corrupted_msg])))
    as (cd & Hrun & Hlast).
  unfold bind at 1. rewrite Hrun. cbn [fst snd fs log app not_removed].
  rewrite Habs. rewrite bool_decide_true by (simpl; lia).
  unfold bind, warn, ret. cbn [fs log remove_all foldl].
  by rewrite (delete_id _ _ Habs), (Hlast file_name eq_refl), <- app_assoc.
Qed.

(** X1. Whatever the cache directory, a store file whose content makes the
    unpickler raise [UnpicklingError] or [EOFError] never makes
    [pickle_load] fail: it returns the fallback after the warning, also
    when the file cannot be removed, and it writes no file. *)
Theorem pickle_load_recovery_never_raises filename fallback w content :
  fs w !! get_cache_data_path filename = Some content ->
  corrupt (pickle_loads content) ->
  exists w' warnings,
    pickle_load filename fallback w = (Ok fallback, w')
    /\ fs w' ⊆ fs w
    /\ log w' = (log w ++ corrupted_msg :: warnings)%list.
Proof.
  clear pickle_dir_absolute stores_distinct.
  intros Hfile Hc. rewrite (pickle_load_present _ _ _ _ Hfile).
  assert (exists e, pickle_loads content = Raise e /\
                    e ∈ [UnpicklingError; EOFError]) as (e & He & Hin).
  { destruct Hc as [Hc | Hc]; eexists; (split; [exact Hc |]);
      [by left | by right; left]. }
  erewrite try_except_caught; [| unfold lift; by rewrite He | done].
  unfold bind.
  destruct (fs w !! get_cache_data_path (get_cache_data_path filename))
    as [content' |] eqn:Hagain.
  - rewrite (delete_cache_files_present _ _ _ Hagain).
    eexists _, []. split; [done |]. cbn [fs log].
    split; [apply delete_subseteq | done].
  - rewrite (delete_cache_files_absent _ _ Hagain).
    eexists _, [_]. split; [done |]. cbn [fs log]. by split.
Qed.

(** X2. [pickle_load] hands [delete_cache_files] the path it has already
    joined to the directory; the path is joined once more there.  When the
    result is not a file (as with a relative directory) the corrupt file is
    kept, and a second warning names it; the fallback is returned all the
    same. *)
Theorem pickle_load_keeps_file_it_cannot_remove filename fallback w content :
  fs w !! get_cache_data_path filename = Some content ->
  corrupt (pickle_loads content) ->
  fs w !! get_cache_data_path (get_cache_data_path filename) = None ->
  pickle_load filename fallback w =
    (Ok fallback,
     World (fs w)
       (log w ++
        [corrupted_msg;
         problem_msg [get_cache_data_path filename]
           (path_dirname
              (get_cache_data_path (get_cache_data_path filename)))])).
Proof.
  clear pickle_dir_absolute stores_distinct.
  intros Hfile Hc Hagain. rewrite (pickle_load_present _ _ _ _ Hfile).
  assert (exists e, pickle_loads content = Raise e /\
                    e ∈ [UnpicklingError; EOFError]) as (e & He & Hin).
  { destruct Hc as [Hc | Hc]; eexists; (split; [exact Hc |]);
      [by left | by right; left]. }
  erewrite try_except_caught; [| unfold lift; by rewrite He | done].
  unfold bind. by rewrite (delete_cache_files_absent _ _ Hagain).
Qed.

(** X3. [pickle_load] writes nothing: every file it leaves was there with
    the same content, and the only file it can remove is the one it reads.
    When that file does not exist the fallback is returned and nothing
    changes at all. *)
Theorem pickle_load_only_removes_its_file filename fallback w :
  let w' := (pickle_load filename fallback w).2 in
  fs w' ⊆ fs w
  /\ (forall path, path <> get_cache_data_path filename ->
        fs w' !! path = fs w !! path)
  /\ (fs w !! get_cache_data_path filename = None ->
      pickle_load filename fallback w = (Ok fallback, w)).
Proof.
  cbv zeta. rewrite pickle_load_eq. cbn [snd].
  split; [apply after_load_subseteq |].
  split; [intros path Hne; by apply after_load_other |].
  intros Habs. unfold stored_value, after_load. by rewrite Habs.
Qed.

(** X4. Loading a second time gives what the first load gave (a value or
    an exception) and changes nothing any more: one load settles the
    file. *)
Theorem pickle_load_twice filename fallback w :
  pickle_load filename fallback (pickle_load filename fallback w).2 =
    ((pickle_load filename fallback w).1, (pickle_load filename fallback w).2).
Proof.
  rewrite !pickle_load_eq. cbn [fst snd].
  rewrite stored_value_after_load. f_equal.
  by apply (after_load_settled _ w).
Qed.

(** *** [add_to_changed_files] *)

Lemma add_to_changed_files_run project_dir changed_files w ch w1 previous :
  pickle_load changed_files_db (VDict ∅) w = (Ok (VDict ch), w1) ->
  ch !! project_dir = VSet <$> previous ->
  add_to_changed_files project_dir changed_files w =
    (Ok tt,
     World
       (<[get_cache_data_path changed_files_db :=
            pickle_dumps
              (VDict (<[project_dir :=
                          VSet (default ∅ previous ∪ changed_files)]> ch))]>
          (fs w1))
       (log w1)).
Proof.
  intros Hload Hprev. unfold add_to_changed_files.
  rewrite (bind_Ok _ _ _ _ _ Hload). unfold bind at 1, lift at 1.
  cbn [py_contains]. rewrite Hprev.
  destruct previous as [previous |]; cbn [fmap option_fmap option_map].
  - rewrite bool_decide_true by by eexists.
    unfold bind, lift. cbn [py_getitem]. rewrite Hprev.
    cbn [fmap option_fmap option_map result_bind py_update py_setitem].
    by rewrite pickle_dump_run.
  - rewrite bool_decide_false by (by intros [? ?]).
    unfold bind, lift. cbn [py_setitem default].
    by rewrite pickle_dump_run, union_empty_l_L.
Qed.

(** X5. [add_to_changed_files] writes the changed-files store with, as
    the set of the project, the files added to the set the project had, or
    the files alone when the project had none: no file already recorded
    for the project is lost. *)
Theorem add_to_changed_files_unions
    project_dir changed_files w ch w1 previous :
  pickle_load changed_files_db (VDict ∅) w = (Ok (VDict ch), w1) ->
  ch !! project_dir = VSet <$> previous ->
  let recorded := default ∅ previous ∪ changed_files in
  exists store,
    add_to_changed_files project_dir changed_files w =
      (Ok tt,
       World
         (<[get_cache_data_path changed_files_db :=
              pickle_dumps (VDict store)]> (fs w1))
         (log w1))
    /\ store !! project_dir = Some (VSet recorded)
    /\ (forall file_name,
          file_name ∈ recorded <->
          file_name ∈ default ∅ previous \/ file_name ∈ changed_files).
Proof.
  clear pickle_dir_absolute stores_distinct.
  intros Hload Hprev recorded.
  exists (<[project_dir := VSet recorded]> ch).
  split; [by apply add_to_changed_files_run |].
  split; [apply lookup_insert_eq |].
  intros f. apply elem_of_union.
Qed.

(** X6. Recording changed files twice for a project records the union of
    the two sets: the second call reads back what the first wrote. *)
Theorem add_to_changed_files_accumulates
    project_dir first second w ch w1 previous :
  pickle_load changed_files_db (VDict ∅) w = (Ok (VDict ch), w1) ->
  ch !! project_dir = VSet <$> previous ->
  serializable
    (VDict (<[project_dir := VSet (default ∅ previous ∪ first)]> ch)) ->
  (let* _ := add_to_changed_files project_dir first in
   add_to_changed_files project_dir second) w =
    (Ok tt,
     World
       (<[get_cache_data_path changed_files_db :=
            pickle_dumps
              (VDict (<[project_dir :=
                          VSet (default ∅ previous ∪ first ∪ second)]> ch))]>
          (fs w1))
       (log w1)).
Proof.
  clear pickle_dir_absolute stores_distinct.
  intros Hload Hprev Hser.
  rewrite (bind_Ok _ _ _ _ _
             (add_to_changed_files_run _ first _ _ _ _ Hload Hprev)).
  rewrite (add_to_changed_files_run project_dir second _
             (<[project_dir := VSet (default ∅ previous ∪ first)]> ch)
             (World
                (<[get_cache_data_path changed_files_db :=
                     pickle_dumps
                       (VDict
                          (<[project_dir :=
                               VSet (default ∅ previous ∪ first)]> ch))]>
                   (fs w1))
                (log w1))
             (Some (default ∅ previous ∪ first))).
  - cbn [fs log default from_option id].
    by rewrite (insert_insert_eq ch), (insert_insert_eq (fs w1)).
  - eapply pickle_load_decoded; [| exact Hser]. apply lookup_insert_eq.
  - apply lookup_insert_eq.
Qed.

(** *** The operations in sequence *)

Lemma stored_value_entry_decoded filename w data project_dir entry :
  stored_value filename (VDict ∅) w = Ok (VDict data) ->
  data !! project_dir = Some entry ->
  exists content,
    fs w !! get_cache_data_path filename = Some content
    /\ pickle_loads content = Ok (VDict data).
Proof.
  unfold stored_value. intros Hv Hentry.
  destruct (fs w !! get_cache_data_path filename) as [content |].
  - destruct (is_corrupt (pickle_loads content)); [| by eexists].
    injection Hv as <-. by rewrite lookup_empty in Hentry.
  - injection Hv as <-. by rewrite lookup_empty in Hentry.
Qed.

Lemma file_names_with_run_time now changed entry file_names file_name :
  is_Some (with_run_time now changed entry file_names !! file_name) <->
  is_Some (entry !! file_name) \/
  (file_name ∈ file_names /\ file_name ∉ changed).
Proof.
  rewrite with_run_time_lookup.
  destruct (decide (file_name ∈ file_names /\ file_name ∉ changed)).
  - split; [by right | by eexists].
  - split; [by left | by intros [? | ?]].
Qed.

(** X7. Recording files as changed and then advancing the run clock keeps
    the run time of every recorded file (the one in the store, -1 or an
    earlier run), gives the current time to the files of the project that
    are neither recorded now nor were before, and leaves the project with
    an empty changed set. *)
Theorem changed_files_survive_the_next_update
    now project_dir changed_files w data w0 ch w1 entry previous :
  pickle_load caching_db (VDict ∅) w = (Ok (VDict data), w0) ->
  pickle_load changed_files_db (VDict ∅) w = (Ok (VDict ch), w1) ->
  data !! project_dir = Some (VDict entry) ->
  ch !! project_dir = VSet <$> previous ->
  serializable
    (VDict (<[project_dir := VSet (default ∅ previous ∪ changed_files)]> ch)) ->
  let entry' :=
    with_run_time now (default ∅ previous ∪ changed_files) entry
      (map_to_list entry).*1 in
  exists w',
    (let* _ := add_to_changed_files project_dir changed_files in
     update_last_coala_run_time now project_dir) w = (Ok tt, w')
    /\ fs w' !! get_cache_data_path caching_db =
         Some (pickle_dumps (VDict (<[project_dir := VDict entry']> data)))
    /\ fs w' !! get_cache_data_path changed_files_db =
         Some (pickle_dumps (VDict (<[project_dir := VSet ∅]> ch)))
    /\ (forall file_name,
          file_name ∈ changed_files ->
          entry' !! file_name = entry !! file_name)
    /\ (forall file_name time,
          entry !! file_name = Some time ->
          file_name ∉ default ∅ previous ->
          file_name ∉ changed_files ->
          entry' !! file_name = Some (VInt now)).
Proof.
  intros Hdata Hch Hentry Hprev Hser entry'.
  pose proof caching_not_changed as Hne.
  rewrite (bind_Ok _ _ _ _ _
             (add_to_changed_files_run _ changed_files _ _ _ _ Hch Hprev)).
  rewrite pickle_load_eq in Hdata, Hch.
  injection Hdata as Hdata _. injection Hch as _ <-.
  destruct (stored_value_entry_decoded _ _ _ _ _ Hdata Hentry)
    as (content & Hfile & Hcontent).
  eexists. split.
  - eapply (update_last_coala_run_time_run _ _ _ data _
              (<[project_dir := VSet (default ∅ previous ∪ changed_files)]> ch)
              _ entry (Some (default ∅ previous ∪ changed_files))).
    + eapply pickle_load_decoded; [| exact Hcontent].
      cbn [fs]. rewrite lookup_insert_ne by done.
      by rewrite after_load_other.
    + eapply pickle_load_decoded; [| exact Hser].
      cbn [fs]. apply lookup_insert_eq.
    + done.
    + apply lookup_insert_eq.
  - cbn [fs default]. rewrite !insert_insert_eq.
    split; [by rewrite lookup_insert_ne, lookup_insert_eq |].
    split; [apply lookup_insert_eq |].
    unfold entry'. split.
    + intros f Hin. rewrite with_run_time_lookup, decide_False; [done |].
      intros [_ Hnot]. apply Hnot, elem_of_union. by right.
    + intros f t Hf Hprev' Hnow'.
      rewrite with_run_time_lookup, decide_True; [done |].
      split; [apply elem_of_file_names; by eexists |].
      by intros [? | ?]%elem_of_union.
Qed.

(** X8. Advancing the run clock twice gives the second time to every file
    of the project, also to the files the first advance skipped as
    changed: the first advance has emptied the changed set. *)
Theorem second_update_reaches_every_file
    now1 now2 project_dir w data w1 ch w2 entry changed :
  pickle_load caching_db (VDict ∅) w = (Ok (VDict data), w1) ->
  pickle_load changed_files_db (VDict ∅) w1 = (Ok (VDict ch), w2) ->
  data !! project_dir = Some (VDict entry) ->
  ch !! project_dir = VSet <$> changed ->
  let entry1 :=
    with_run_time now1 (default ∅ changed) entry (map_to_list entry).*1 in
  let entry2 := with_run_time now2 ∅ entry1 (map_to_list entry1).*1 in
  serializable (VDict (<[project_dir := VDict entry1]> data)) ->
  serializable (VDict (<[project_dir := VSet ∅]> ch)) ->
  exists w',
    (let* _ := update_last_coala_run_time now1 project_dir in
     update_last_coala_run_time now2 project_dir) w = (Ok tt, w')
    /\ fs w' !! get_cache_data_path caching_db =
         Some (pickle_dumps (VDict (<[project_dir := VDict entry2]> data)))
    /\ (forall file_name,
          entry2 !! file_name =
            match entry !! file_name with
            | Some _ => Some (VInt now2)
            | None => None
            end).
Proof.
  intros Hdata Hch Hentry Hchanged entry1 entry2 Hser1 Hser2.
  pose proof caching_not_changed as Hne.
  rewrite (bind_Ok _ _ _ _ _
             (update_last_coala_run_time_run _ _ _ _ _ _ _ _ _
                Hdata Hch Hentry Hchanged)).
  eexists. split.
  - eapply (update_last_coala_run_time_run _ _ _
              (<[project_dir := VDict entry1]> data) _
              (<[project_dir := VSet ∅]> ch) _ entry1 (Some ∅)).
    + eapply pickle_load_decoded; [| exact Hser1].
      cbn [fs]. by rewrite lookup_insert_ne, lookup_insert_eq.
    + eapply pickle_load_decoded; [| exact Hser2].
      cbn [fs]. apply lookup_insert_eq.
    + apply lookup_insert_eq.
    + apply lookup_insert_eq.
  - cbn [fs default]. rewrite !insert_insert_eq.
    split; [by rewrite lookup_insert_ne, lookup_insert_eq |].
    intros f. unfold entry2. rewrite with_run_time_lookup.
    destruct (entry !! f) as [t |] eqn:Hf.
    + rewrite decide_True; [done |]. split; [| apply not_elem_of_empty].
      apply elem_of_file_names, file_names_with_run_time. left.
      by eexists.
    + rewrite decide_False.
      * unfold entry1. rewrite with_run_time_lookup, decide_False; [done |].
        intros [[t Ht]%elem_of_file_names _]. congruence.
      * intros [Hin%elem_of_file_names%file_names_with_run_time _].
        destruct Hin as [[t Ht] | [[t Ht]%elem_of_file_names _]]; congruence.
Qed.

(** X9. Registering new files and then advancing the run clock gives the
    current time to every new file, except to the new files recorded as
    changed for the project, which stay at -1. *)
Theorem new_files_get_the_time_of_the_next_update
    now project_dir prior new_files w data w1 ch changed :
  pickle_load caching_db (VDict ∅) w = (Ok (VDict data), w1) ->
  (pickle_load changed_files_db (VDict ∅) w).1 = Ok (VDict ch) ->
  ch !! project_dir = VSet <$> changed ->
  let last_coala_run :=
    match prior with Some d => VDict d | None => VNone end in
  let registered := with_new_files (default ∅ prior) new_files in
  let entry' :=
    with_run_time now (default ∅ changed) registered
      (map_to_list registered).*1 in
  serializable (VDict (<[project_dir := VDict registered]> data)) ->
  exists w',
    (let* _ :=
       add_new_files_since_last_run project_dir last_coala_run new_files in
     update_last_coala_run_time now project_dir) w = (Ok tt, w')
    /\ fs w' !! get_cache_data_path caching_db =
         Some (pickle_dumps (VDict (<[project_dir := VDict entry']> data)))
    /\ (forall file_name,
          file_name ∈ new_files ->
          entry' !! file_name =
            Some (VInt (if decide (file_name ∈ default ∅ changed)
                        then -1 else now))).
Proof.
  intros Hdata Hch Hchanged last_coala_run registered entry' Hser.
  pose proof caching_not_changed as Hne.
  rewrite (bind_Ok _ _ _ _ _
             (add_new_files_since_last_run_run project_dir prior new_files
                _ _ _ Hdata)).
  rewrite pickle_load_eq in Hdata, Hch.
  injection Hdata as _ <-. cbn [fst] in Hch.
  eexists. split.
  - eapply (update_last_coala_run_time_run _ _ _
              (<[project_dir := VDict registered]> data) _ ch _ registered
              changed).
    + eapply pickle_load_decoded; [| exact Hser].
      cbn [fs]. apply lookup_insert_eq.
    + rewrite pickle_load_eq. f_equal. rewrite <- Hch.
      apply stored_value_ext. cbn [fs].
      rewrite lookup_insert_ne by (by intros ?).
      apply after_load_other. by intros ?.
    + apply lookup_insert_eq.
    + done.
  - cbn [fs]. rewrite insert_insert_eq.
    split; [by rewrite lookup_insert_ne, lookup_insert_eq |].
    intros f Hin. unfold entry'. rewrite with_run_time_lookup.
    assert (Hreg : registered !! f = Some (VInt (-1))).
    { unfold registered. by rewrite with_new_files_lookup, decide_True. }
    destruct (decide (f ∈ default ∅ changed)) as [Hc | Hc].
    + rewrite decide_False; [done | by intros [_ ?]].
    + rewrite decide_True; [done |].
      split; [apply elem_of_file_names; by eexists | done].
Qed.

(** *** What the operations never do *)

Lemma load_modify_dump_cases filename modify w :
  (load_modify_dump filename modify w).2 = after_load filename w
  \/ exists data,
       load_modify_dump filename modify w =
         (Ok tt,
          World
            (<[get_cache_data_path filename := pickle_dumps data]>
               (fs (after_load filename w)))
            (log (after_load filename w))).
Proof.
  unfold load_modify_dump, bind, lift. rewrite pickle_load_eq.
  destruct (stored_value filename (VDict ∅) w) as [v | e |]; [| by left..].
  destruct (modify v) as [v' | e |]; [| by left..].
  right. exists v'. by rewrite pickle_dump_run.
Qed.

Lemma add_new_files_since_last_run_shape
    project_dir last_coala_run new_files w :
  add_new_files_since_last_run project_dir last_coala_run new_files w =
    match
      mark_new
        (match last_coala_run with VNone => VDict ∅ | _ => last_coala_run end)
        new_files
    with
    | Ok entry =>
        load_modify_dump caching_db
          (fun data => py_setitem data project_dir entry) w
    | Raise e => (Raise e, w)
    | Unmodelled => (Unmodelled, w)
    end.
Proof.
  unfold add_new_files_since_last_run, load_modify_dump, bind at 1, lift at 1.
  by destruct (mark_new _ new_files).
Qed.

Lemma update_last_coala_run_time_cases now project_dir w :
  let w1 := after_load caching_db w in
  let w2 := after_load changed_files_db w1 in
  (update_last_coala_run_time now project_dir w).2 = w1
  \/ (update_last_coala_run_time now project_dir w).2 = w2
  \/ exists data changed_files,
       update_last_coala_run_time now project_dir w =
         (Ok tt,
          World
            (<[get_cache_data_path changed_files_db :=
                 pickle_dumps changed_files]>
               (<[get_cache_data_path caching_db := pickle_dumps data]>
                  (fs w2)))
            (log w2)).
Proof.
  intros w1 w2.
  destruct (update_last_coala_run_time now project_dir w) as [r w']
    eqn:Hrun.
  cbn [snd]. unfold update_last_coala_run_time in Hrun.
  unfold bind at 1 in Hrun. rewrite pickle_load_eq in Hrun. fold w1 in Hrun.
  destruct (stored_value caching_db (VDict ∅) w) as [v1 | e |];
    [| injection Hrun as _ <-; by left..].
  unfold bind at 1 in Hrun. rewrite pickle_load_eq in Hrun. fold w2 in Hrun.
  destruct (stored_value changed_files_db (VDict ∅) w1) as [v2 | e |];
    [| injection Hrun as _ <-; by right; left..].
  unfold bind at 1, lift at 1 in Hrun.
  destruct (py_contains v1 project_dir) as [[|] | e |];
    cbn [negb] in Hrun; [| injection Hrun as _ <-; by right; left..].
  unfold bind at 1, lift at 1 in Hrun.
  destruct (py_getitem v1 project_dir) as [entry | e |];
    [| injection Hrun as _ <-; by right; left..].
  unfold bind at 1, lift at 1 in Hrun.
  destruct (py_iter entry) as [file_names | e |];
    [| injection Hrun as _ <-; by right; left..].
  unfold bind at 1, lift at 1 in Hrun.
  destruct (touch_files now project_dir v2 v1 file_names) as [v1' | e |];
    [| injection Hrun as _ <-; by right; left..].
  unfold bind at 1, lift at 1 in Hrun.
  destruct (py_setitem v2 project_dir (VSet ∅)) as [v2' | e |];
    [| injection Hrun as _ <-; by right; left..].
  unfold bind in Hrun. rewrite !pickle_dump_run in Hrun.
  cbn [fs log] in Hrun. rewrite <- Hrun.
  right. right. by exists v1', v2'.
Qed.

(** X11. No operation touches a file other than the two store files;
    [add_to_changed_files] leaves the run-time store file alone, and
    [add_new_files_since_last_run] the changed-files store file. *)
Theorem operations_touch_only_their_stores op project_dir w :
  let w' := (run_operation op project_dir w).2 in
  (forall path,
     path <> get_cache_data_path caching_db ->
     path <> get_cache_data_path changed_files_db ->
     fs w' !! path = fs w !! path)
  /\ match op with
     | RecordChangedFiles _ =>
         fs w' !! get_cache_data_path caching_db =
           fs w !! get_cache_data_path caching_db
     | RegisterNewFiles _ _ =>
         fs w' !! get_cache_data_path changed_files_db =
           fs w !! get_cache_data_path changed_files_db
     | AdvanceRunClock _ => True
     end.
Proof.
  pose proof caching_not_changed as Hne.
  assert (Hframe : forall filename modify path,
            path <> get_cache_data_path filename ->
            fs (load_modify_dump filename modify w).2 !! path = fs w !! path).
  { intros filename modify path Hpath.
    destruct (load_modify_dump_cases filename modify w) as [-> | [data ->]].
    - by apply after_load_other.
    - cbn [snd fs]. rewrite lookup_insert_ne by done.
      by apply after_load_other. }
  destruct op as [changed_files | last_coala_run new_files | now];
    cbn [run_operation].
  - rewrite add_to_changed_files_shape. split; [| by apply Hframe].
    intros path _ Hpath. by apply Hframe.
  - rewrite add_new_files_since_last_run_shape.
    destruct (mark_new _ new_files) as [entry | e |]; [| done..].
    split; [| apply Hframe; by intros ?].
    intros path Hpath _. by apply Hframe.
  - split; [| done]. intros path Hca Hch.
    destruct (update_last_coala_run_time_cases now project_dir w)
      as [-> | [-> | (data & changed_files & ->)]].
    + by apply after_load_other.
    + by rewrite !after_load_other.
    + cbn [snd fs]. by rewrite !lookup_insert_ne, !after_load_other.
Qed.

Lemma after_load_log filename w :
  log (after_load filename w) = log w
  \/ log (after_load filename w) = (log w ++ [corrupted_msg])%list.
Proof.
  unfold after_load. destruct (fs w !! _); [| by left].
  destruct (is_corrupt _); [by right | by left].
Qed.

(** X12. The only warning an operation gives is the one about a corrupt
    cache, at most twice in all; when neither of the two store files is
    corrupt an operation gives no warning. *)
Theorem operations_warn_only_of_corruption op project_dir w :
  let w' := (run_operation op project_dir w).2 in
  let corrupted_text :=
    "The caching database is corrupted and will be removed. " ++
    "Each project will be re-cached automatically the next time " ++
    "coala is run." in
  (exists n, (n <= 2)%nat /\
     log w' = (log w ++ replicate n corrupted_text)%list)
  /\ ((forall content,
         fs w !! get_cache_data_path caching_db = Some content ->
         is_corrupt (pickle_loads content) = false) ->
      (forall content,
         fs w !! get_cache_data_path changed_files_db = Some content ->
         is_corrupt (pickle_loads content) = false) ->
      log w' = log w).
Proof.
  assert (Hone : forall filename w0,
            exists n, (n <= 1)%nat /\
              log (after_load filename w0) =
                (log w0 ++ replicate n corrupted_msg)%list).
  { intros filename w0. destruct (after_load_log filename w0) as [-> | ->].
    - exists 0%nat. split; [lia | by rewrite app_nil_r].
    - exists 1%nat. split; [lia | done]. }
  assert (Hlmd : forall filename modify,
            log (load_modify_dump filename modify w).2 =
              log (after_load filename w)).
  { intros filename modify.
    by destruct (load_modify_dump_cases filename modify w) as [-> | [? ->]]. }
  assert (Hupd : forall now,
            log (update_last_coala_run_time now project_dir w).2 =
              log (after_load caching_db w)
            \/ log (update_last_coala_run_time now project_dir w).2 =
                 log (after_load changed_files_db (after_load caching_db w))).
  { intros now.
    destruct (update_last_coala_run_time_cases now project_dir w)
      as [-> | [-> | (? & ? & ->)]]; auto. }
  cbv zeta. change (_ ++ _ ++ _) with corrupted_msg. split.
  - destruct op as [changed_files | last_coala_run new_files | now];
      cbn [run_operation].
    + rewrite add_to_changed_files_shape, Hlmd.
      destruct (Hone changed_files_db w) as (n & Hn & ->).
      exists n. split; [lia | done].
    + rewrite add_new_files_since_last_run_shape.
      destruct (mark_new _ new_files) as [entry | e |];
        [| exists 0%nat; split; [lia | by rewrite app_nil_r]..].
      rewrite Hlmd. destruct (Hone caching_db w) as (n & Hn & ->).
      exists n. split; [lia | done].
    + destruct (Hone caching_db w) as (n & Hn & Hlog).
      destruct (Hupd now) as [-> | ->].
      * exists n. split; [lia | done].
      * destruct (Hone changed_files_db (after_load caching_db w))
          as (m & Hm & ->).
        exists (n + m)%nat. split; [lia |].
        by rewrite Hlog, <- app_assoc, replicate_add.
  - intros Hcaching Hchanged.
    assert (Hca : after_load caching_db w = w)
      by by apply after_load_sound.
    assert (Hch : after_load changed_files_db w = w)
      by by apply after_load_sound.
    destruct op as [changed_files | last_coala_run new_files | now];
      cbn [run_operation].
    + by rewrite add_to_changed_files_shape, Hlmd, Hch.
    + rewrite add_new_files_since_last_run_shape.
      destruct (mark_new _ new_files) as [entry | e |]; [| done..].
      by rewrite Hlmd, Hca.
    + destruct (Hupd now) as [-> | ->]; by rewrite Hca, ?Hch.
Qed.

(** X13. A prior that is neither [None] nor a dictionary makes
    [add_new_files_since_last_run] raise [TypeError] at the first new file,
    before any file is read: the world is left as it was. *)
Theorem add_new_files_since_last_run_rejects_other_priors
    project_dir last_coala_run new_file new_files w :
  last_coala_run <> VNone ->
  (forall d, last_coala_run <> VDict d) ->
  add_new_files_since_last_run project_dir last_coala_run
    (new_file :: new_files) w = (Raise TypeError, w).
Proof.
  clear pickle_dir_absolute stores_distinct.
  intros Hnone Hdict. rewrite add_new_files_since_last_run_shape.
  destruct last_coala_run as [| n | s | d]; try done.
  by destruct (Hdict d).
Qed.

(** *** More on [delete_cache_files] *)

Lemma delete_cache_files_run files w :
  exists warnings,
    delete_cache_files files w =
      (Ok (bool_decide (not_removed files (fs w) = [])),
       World (remove_all files (fs w))
         (log w ++ corrupted_msg :: warnings))
    /\ (not_removed files (fs w) = [] -> warnings = [])
    /\ (forall file_name,
          not_removed files (fs w) <> [] -> last files = Some file_name ->
          warnings =
            [problem_msg (not_removed files (fs w))
               (path_dirname (get_cache_data_path file_name))]).
Proof.
  unfold delete_cache_files, bind at 1, warn.
  destruct (delete_each_run files [] ""
              (World (fs w) (log w ++ [corrupted_msg])))
    as (cd & Hrun & Hlast).
  unfold bind at 1. rewrite Hrun. cbn [fst snd fs log app].
  destruct (not_removed files (fs w)) as [| f failed] eqn:Hfailed.
  - rewrite bool_decide_false by (simpl; lia).
    rewrite bool_decide_true by done. unfold ret.
    by exists [].
  - rewrite bool_decide_true by (simpl; lia).
    rewrite bool_decide_false by done. unfold bind, warn, ret.
    eexists [_]. cbn [fs log]. rewrite <- app_assoc.
    split; [done |]. split; [done |].
    intros g _ Hg. by rewrite (Hlast g Hg).
Qed.

Lemma not_removed_absent files : forall m,
  (forall file_name, file_name ∈ files ->
     m !! get_cache_data_path file_name = None) ->
  not_removed files m = files.
Proof.
  induction files as [| f files IH]; intros m Habs; [done |].
  cbn [not_removed]. rewrite (Habs f) by by left.
  rewrite IH; [done |]. intros g Hg. apply Habs. by right.
Qed.

Lemma remove_all_absent files m :
  (forall file_name, file_name ∈ files ->
     m !! get_cache_data_path file_name = None) ->
  remove_all files m = m.
Proof.
  intros Habs. apply map_eq. intros path. rewrite remove_all_lookup.
  destruct (decide (path ∈ get_cache_data_path <$> files)) as [Hin | Hin];
    [| done].
  apply list_elem_of_fmap in Hin as (g & -> & Hg). symmetry. by apply Habs.
Qed.


(** X14. [delete_cache_files] removes requested files only, and nothing is
    left for a second call: deleting the same names again returns [False]
    (for a list that is not empty) and removes nothing. *)
Theorem delete_cache_files_again_fails files w :
  files <> [] ->
  let w' := (delete_cache_files files w).2 in
  (forall path, path ∉ get_cache_data_path <$> files ->
     fs w' !! path = fs w !! path)
  /\ exists w'',
       delete_cache_files files w' = (Ok false, w'') /\ fs w'' = fs w'.
Proof.
  clear pickle_dir_absolute stores_distinct.
  intros Hfiles. cbv zeta.
  destruct (delete_cache_files_run files w) as (warnings & -> & _).
  cbn [snd fs]. split.
  - intros path Hpath. by rewrite remove_all_lookup, decide_False.
  - assert (Hgone : forall file_name, file_name ∈ files ->
              remove_all files (fs w) !! get_cache_data_path file_name = None).
    { intros g Hg. rewrite remove_all_lookup, decide_True; [done |].
      apply list_elem_of_fmap. by exists g. }
    match goal with
    | |- context [delete_cache_files files ?w1] =>
        destruct (delete_cache_files_run files w1) as (again & -> & _)
    end.
    cbn [fs]. rewrite (not_removed_absent _ _ Hgone).
    rewrite bool_decide_false by done.
    eexists. split; [done |]. cbn [fs]. by apply remove_all_absent.
Qed.

Lemma head_of_no_sep s : has_sep s = false -> head_of s = "".
Proof.
  induction s as [| c s IH]; [done |]. simpl.
  intros [Hc Hs]%orb_false_iff. by rewrite (IH Hs), Hc.
Qed.

Lemma head_of_app_sep a b :
  has_sep b = false -> head_of (a ++ String sep b) = a ++ String sep "".
Proof.
  intros Hb. induction a as [| c a IH].
  - simpl. by rewrite (head_of_no_sep _ Hb).
  - change (head_of (String c (a ++ String sep b)) =
            String c (a ++ String sep "")).
    cbn [head_of]. rewrite IH. by destruct a.
Qed.

Lemma all_sep_app_sep a : all_sep (a ++ String sep "") = all_sep a.
Proof.
  induction a as [| c a IH]; [done |].
  change (all_sep (String c (a ++ String sep "")) = all_sep (String c a)).
  cbn [all_sep]. by rewrite IH.
Qed.

Lemma rstrip_sep_app_sep a : rstrip_sep (a ++ String sep "") = rstrip_sep a.
Proof.
  induction a as [| c a IH]; [done |].
  change (rstrip_sep (String c (a ++ String sep "")) =
          rstrip_sep (String c a)).
  cbn [rstrip_sep]. by rewrite IH.
Qed.

Lemma rstrip_sep_id a :
  a <> "" -> endswith_sep a = false ->
  rstrip_sep a = a /\ all_sep a = false.
Proof.
  induction a as [| c a IH]; [done |]. intros _ Hend.
  destruct a as [| c' a].
  - simpl in *. by rewrite Hend.
  - destruct IH as [IH1 IH2]; [done | done |].
    change (rstrip_sep (String c (String c' a))) with
      (match rstrip_sep (String c' a) with
       | EmptyString => if bool_decide (c = sep) then "" else String c ""
       | r => String c r
       end).
    change (all_sep (String c (String c' a))) with
      (bool_decide (c = sep) && all_sep (String c' a)).
    rewrite IH1, IH2. split; [done | apply andb_false_r].
Qed.

Lemma path_dirname_cache_path file_name :
  pickle_dir <> "" -> endswith_sep pickle_dir = false ->
  has_sep file_name = false ->
  path_dirname (get_cache_data_path file_name) = pickle_dir.
Proof.
  clear pickle_dir_absolute stores_distinct.
  intros Hdir Hend Hname. unfold get_cache_data_path, path_join.
  assert (startswith_sep file_name = false) as ->.
  { destruct file_name as [| c s]; [done |]. simpl in *.
    by apply orb_false_iff in Hname as [-> _]. }
  rewrite Hend, bool_decide_false by done. cbn [orb].
  unfold path_dirname. rewrite (head_of_app_sep _ _ Hname).
  destruct (rstrip_sep_id _ Hdir Hend) as [Hstrip Hall].
  rewrite all_sep_app_sep, Hall, rstrip_sep_app_sep, Hstrip.
  rewrite bool_decide_false; [done |]. by destruct pickle_dir.
Qed.

(** X15. When the directory path does not end with a separator and the
    file names hold none, the second warning of [delete_cache_files] lists
    exactly the files that were not removed and tells to delete them from
    the cache directory itself. *)
Theorem delete_cache_files_names_the_cache_directory files w :
  pickle_dir <> "" -> endswith_sep pickle_dir = false ->
  Forall (fun file_name => has_sep file_name = false) files ->
  not_removed files (fs w) <> [] ->
  exists first_warning,
    delete_cache_files files w =
      (Ok false,
       World (remove_all files (fs w))
         (log w ++
          [first_warning;
           "There was a problem deleting the following files: " ++
           String.concat ", " (not_removed files (fs w)) ++
           ". Please delete them manually from " ++ pickle_dir])).
Proof.
  clear pickle_dir_absolute stores_distinct.
  intros Hdir Hend Hnames Hfailed. exists corrupted_msg.
  destruct (delete_cache_files_run files w) as (warnings & -> & _ & Hwarn).
  rewrite bool_decide_false by done.
  destruct (last files) as [file_name |] eqn:Hlast.
  - rewrite (Hwarn file_name Hfailed eq_refl).
    rewrite path_dirname_cache_path; [done.. |].
    rewrite Forall_forall in Hnames. apply Hnames.
    apply last_Some in Hlast as [l' ->]. apply elem_of_app. right. by left.
  - apply last_None in Hlast. by subst files.
Qed.

(** X16. Registering new files on top of what
    [get_last_coala_run_time] returns keeps the run time of every file
    already tracked that is not among the new ones; for a project without
    entry the new files are all there is. *)
Theorem registering_on_top_keeps_run_times
    project_dir new_files w data w1 previous :
  pickle_load caching_db (VDict ∅) w = (Ok (VDict data), w1) ->
  data !! project_dir = VDict <$> previous ->
  let entry := with_new_files (default ∅ previous) new_files in
  (let* last_coala_run := get_last_coala_run_time project_dir in
   add_new_files_since_last_run project_dir last_coala_run new_files) w =
    (Ok tt,
     World
       (<[get_cache_data_path caching_db :=
            pickle_dumps (VDict (<[project_dir := VDict entry]> data))]>
          (fs w1))
       (log w1))
  /\ (forall file_name,
        file_name ∉ new_files ->
        entry !! file_name = default ∅ previous !! file_name)
  /\ (forall file_name,
        file_name ∈ new_files -> entry !! file_name = Some (VInt (-1))).
Proof.
  intros Hload Hprev entry.
  rewrite (bind_Ok _ _ _ _ _ (get_last_coala_run_time_run _ _ _ _ Hload)).
  assert (Hagain : pickle_load caching_db (VDict ∅) w1 = (Ok (VDict data), w1)).
  { rewrite pickle_load_eq in Hload. injection Hload as Hv <-.
    rewrite pickle_load_eq, stored_value_after_load, Hv. f_equal.
    by apply (after_load_settled _ w). }
  split; [| split].
  - rewrite Hprev. unfold entry.
    destruct previous as [previous |];
      cbn [fmap option_fmap option_map default from_option id].
    + exact (add_new_files_since_last_run_run project_dir (Some previous)
               new_files w1 data w1 Hagain).
    + exact (add_new_files_since_last_run_run project_dir None
               new_files w1 data w1 Hagain).
  - intros f Hf. unfold entry. by rewrite with_new_files_lookup, decide_False.
  - intros f Hf. unfold entry. by rewrite with_new_files_lookup, decide_True.
Qed.

(** *** Resetting the cache, and names that do not meet *)

(** X17. Deleting the two store files (the default of
    [delete_cache_files]) forgets every project: afterwards
    [get_last_coala_run_time] returns [None] for every project, the
    changed-files store reads as empty, and advancing the run clock does
    nothing. *)
Theorem delete_cache_files_forgets_every_project w :
  let w' := (delete_cache_files [caching_db; changed_files_db] w).2 in
  (forall project_dir,
     get_last_coala_run_time project_dir w' = (Ok VNone, w'))
  /\ pickle_load changed_files_db (VDict ∅) w' = (Ok (VDict ∅), w')
  /\ (forall now project_dir,
        update_last_coala_run_time now project_dir w' = (Ok tt, w')).
Proof.
  clear pickle_dir_absolute stores_distinct.
  cbv zeta.
  destruct (delete_cache_files_run [caching_db; changed_files_db] w)
    as (warnings & -> & _).
  cbn [snd].
  match goal with |- context [pickle_load _ _ ?w0] => set (w' := w0) end.
  assert (Hca : pickle_load caching_db (VDict ∅) w' = (Ok (VDict ∅), w')).
  { apply pickle_load_absent. unfold w'. cbn [fs].
    rewrite remove_all_lookup, decide_True; [done | by left]. }
  assert (Hch : pickle_load changed_files_db (VDict ∅) w' =
                (Ok (VDict ∅), w')).
  { apply pickle_load_absent. unfold w'. cbn [fs].
    rewrite remove_all_lookup, decide_True; [done | by right; left]. }
  split; [| split; [done |]].
  - intros project_dir.
    by rewrite (get_last_coala_run_time_run _ _ _ _ Hca), lookup_empty.
  - intros now project_dir. unfold update_last_coala_run_time.
    rewrite (bind_Ok _ _ _ _ _ Hca), (bind_Ok _ _ _ _ _ Hch).
    unfold bind, lift. cbn [py_contains].
    rewrite bool_decide_false; [done |]. rewrite lookup_empty. by intros [? ?].
Qed.

Lemma pickle_load_value filename fallback w :
  (pickle_load filename fallback w).1 = stored_value filename fallback w.
Proof.
  clear pickle_dir_absolute stores_distinct.
  unfold stored_value.
  destruct (fs w !! get_cache_data_path filename) as [content |] eqn:Hfile;
    [| by rewrite pickle_load_absent].
  rewrite (pickle_load_present _ _ _ _ Hfile).
  unfold try_except, lift.
  destruct (pickle_loads content) as [v | e |] eqn:Hr; [done | | done].
  destruct (decide (e ∈ [UnpicklingError; EOFError])) as [Hin | Hin].
  - rewrite bool_decide_true by done.
    assert (is_corrupt (Raise e) = true) as ->.
    { apply elem_of_cons in Hin as [-> | Hin]; [done |].
      by apply elem_of_cons in Hin as [-> | ?%elem_of_nil]. }
    unfold bind.
    by destruct (delete_cache_files_run [get_cache_data_path filename] w)
      as (warnings & -> & _).
  - rewrite bool_decide_false by done.
    assert (is_corrupt (Raise e) = false) as ->; [| done].
    destruct e; try done; destruct Hin; [by left | by right; left].
Qed.

(** X18. Dumping under one name does not change what a load of a name
    with another path returns. *)
Theorem pickle_dump_leaves_other_names filename data other fallback w :
  get_cache_data_path other <> get_cache_data_path filename ->
  (pickle_load other fallback (pickle_dump filename data w).2).1 =
  (pickle_load other fallback w).1.
Proof.
  clear pickle_dir_absolute stores_distinct.
  intros Hne. rewrite !pickle_load_value, pickle_dump_run. cbn [snd].
  apply stored_value_ext. cbn [fs]. by apply lookup_insert_ne.
Qed.

Lemma append_cancel_l (a b c : string) : a ++ b = a ++ c -> b = c.
Proof.
  induction a as [| x a IH]; [done |]. cbn [String.append].
  intros [= H]. by apply IH.
Qed.

(** X19. Two different file names that do not start with a separator are
    resolved to two different paths of the cache directory: the two stores
    are two files as soon as their names differ. *)
Theorem get_cache_data_path_distinct filename other :
  startswith_sep filename = false ->
  startswith_sep other = false ->
  filename <> other ->
  get_cache_data_path filename <> get_cache_data_path other.
Proof.
  clear pickle_dir_absolute stores_distinct.
  unfold get_cache_data_path, path_join. intros -> -> Hne.
  destruct (bool_decide (pickle_dir = "") || endswith_sep pickle_dir).
  - by intros H%append_cancel_l.
  - intros H%append_cancel_l. by injection H.
Qed.

(** *** Objects with identity: the heap *)

Lemma top_ge (h : heap) r o : h !! r = Some o -> (r <= top h)%positive.
Proof.
  clear. unfold top. revert r o.
  apply (map_fold_weak_ind
           (fun acc (m : heap) =>
              forall r o, m !! r = Some o -> (r <= acc)%positive)).
  - intros r o Hr. by rewrite lookup_empty in Hr.
  - intros i x m acc Hi IH r o Hr.
    destruct (decide (r = i)) as [-> | Hne]; [lia |].
    rewrite lookup_insert_ne in Hr by done.
    specialize (IH r o Hr). lia.
Qed.

Lemma top_fresh (h : heap) r : h !! (top h + r)%positive = None.
Proof.
  clear. destruct (h !! (top h + r)%positive) as [o |] eqn:Hr; [| done].
  apply top_ge in Hr. lia.
Qed.

Lemma top_succ_fresh (h : heap) : h !! Pos.succ (top h) = None.
Proof.
  clear. destruct (h !! Pos.succ (top h)) as [o |] eqn:Hr; [| done].
  apply top_ge in Hr. lia.
Qed.

Lemma reach_bound h v r : reach h v r -> is_Some (h !! r).
Proof. clear. induction 1; [by eexists | done]. Qed.

#[local] Instance pos_add_inj base : Inj (=) (=) (Pos.add base).
Proof. intros r1 r2 Heq. by apply Pos.add_reg_l in Heq. Qed.

Lemma move_val_ref base v r :
  move_val base v = HRef r ->
  exists r0, v = HRef r0 /\ r = (base + r0)%positive.
Proof. clear. destruct v; [done.. |]. intros [= <-]. by eexists. Qed.

Lemma graft_Ok g h v h' :
  graft g h = Ok (v, h') ->
  closed g = true
  /\ v = move_val (top h) (root g)
  /\ h' = h ∪ kmap (Pos.add (top h)) (move_obj (top h) <$> objects g).
Proof.
  clear. unfold graft. destruct (closed g); [| done]. by intros [= <- <-].
Qed.

Lemma lookup_graft_new (h objs : heap) r0 :
  (h ∪ kmap (Pos.add (top h)) (move_obj (top h) <$> objs))
    !! (top h + r0)%positive = move_obj (top h) <$> objs !! r0.
Proof.
  clear. rewrite lookup_union_r by apply top_fresh.
  by rewrite (lookup_kmap (Pos.add (top h))), lookup_fmap.
Qed.

Lemma graft_subseteq g h v h' : graft g h = Ok (v, h') -> h ⊆ h'.
Proof.
  clear. intros (_ & _ & ->)%graft_Ok. apply map_union_subseteq_l.
Qed.

(** The root of a loaded graph is a new object. *)
Lemma graft_root_new g h s h' : graft g h = Ok (HRef s, h') -> h !! s = None.
Proof.
  clear. intros (_ & Hv & _)%graft_Ok. symmetry in Hv.
  apply move_val_ref in Hv as (r0 & _ & ->). apply top_fresh.
Qed.

Lemma graft_dict g h s h' d :
  graft g h = Ok (HRef s, h') -> h' !! s = Some (HDict d) ->
  exists s0 d0,
    s = (top h + s0)%positive /\ root g = HRef s0
    /\ objects g !! s0 = Some (HDict d0) /\ d = move_val (top h) <$> d0.
Proof.
  clear. intros (_ & Hv & ->)%graft_Ok Hs. symmetry in Hv.
  apply move_val_ref in Hv as (s0 & Hroot & ->).
  rewrite lookup_graft_new in Hs.
  destruct (objects g !! s0) as [[s1 | d0] |] eqn:Hs0; [done | | done].
  injection Hs as <-. by exists s0, d0.
Qed.

(** The objects of a loaded value are those of the graph, moved. *)
Lemma reach_graft (h objs : heap) v r :
  reach (h ∪ kmap (Pos.add (top h)) (move_obj (top h) <$> objs))
    (move_val (top h) v) r ->
  exists r0, r = (top h + r0)%positive /\ reach objs v r0.
Proof.
  clear. intros Hreach.
  remember (move_val (top h) v) as v' eqn:Hv'. revert v Hv'.
  induction Hreach as [r o Hr | r d k v1 r' Hr Hk Hreach IH]; intros v Hv'.
  - symmetry in Hv'. apply move_val_ref in Hv' as (r0 & -> & ->).
    rewrite lookup_graft_new in Hr. exists r0. split; [done |].
    destruct (objs !! r0) as [o0 |] eqn:Hr0; [| done].
    by eapply reach_here.
  - symmetry in Hv'. apply move_val_ref in Hv' as (r0 & -> & ->).
    rewrite lookup_graft_new in Hr.
    destruct (objs !! r0) as [[s0 | d0] |] eqn:Hr0; [done | | done].
    injection Hr as <-.
    apply lookup_fmap_Some in Hk as (v0 & <- & Hk).
    destruct (IH v0 eq_refl) as (r0' & -> & Hreach0).
    exists r0'. split; [done |]. by eapply reach_step.
Qed.

Lemma apart_graft project_dir other g h v h' :
  graft g h = Ok (v, h') ->
  apart project_dir other g -> apart project_dir other (Graph v h').
Proof.
  clear. intros Hgraft Hapart s d Hroot Hs. cbn [root objects] in *.
  subst v. destruct (graft_dict _ _ _ _ _ Hgraft Hs)
    as (s0 & d0 & -> & Hroot0 & Hs0 & ->).
  apply graft_Ok in Hgraft as (_ & _ & ->).
  destruct (Hapart s0 d0 Hroot0 Hs0) as [Hself Hother]. split.
  - rewrite lookup_fmap. intros Heq.
    destruct (d0 !! project_dir) as [v0 |] eqn:Hp; [| done].
    injection Heq as Heq. apply move_val_ref in Heq as (r0 & -> & Heq).
    apply (inj (Pos.add (top h))) in Heq. by subst r0.
  - intros entry Hentry.
    apply lookup_fmap_Some in Hentry as (entry0 & <- & Hentry0).
    destruct (Hother entry0 Hentry0) as [Hstore Hmine]. split.
    + intros (r0 & Heq & Hreach)%reach_graft.
      apply (inj (Pos.add (top h))) in Heq. by subst r0.
    + intros e He. apply lookup_fmap_Some in He as (v0 & Hv0 & He0).
      apply move_val_ref in Hv0 as (e0 & -> & ->).
      intros (r0 & Heq & Hreach)%reach_graft.
      apply (inj (Pos.add (top h))) in Heq. subst r0.
      by apply (Hmine e0).
Qed.

Lemma closed_dict g r d k e :
  closed g = true -> objects g !! r = Some (HDict d) ->
  d !! k = Some (HRef e) -> is_Some (objects g !! e).
Proof.
  clear. unfold closed. intros [_ Hall]%andb_true_iff Hr Hk.
  rewrite forallb_forall in Hall.
  assert (Hobj : bound_obj (objects g) (HDict d) = true).
  { apply Hall, list_elem_of_In, list_elem_of_fmap.
    exists (r, HDict d). split; [done |]. by apply elem_of_map_to_list. }
  cbn [bound_obj] in Hobj. rewrite forallb_forall in Hobj.
  assert (Hval : bound (objects g) (HRef e) = true).
  { apply Hobj, list_elem_of_In, list_elem_of_fmap.
    exists (k, HRef e). split; [done |]. by apply elem_of_map_to_list. }
  cbn [bound] in Hval. by apply bool_decide_eq_true in Hval.
Qed.

Lemma closed_root g r :
  closed g = true -> root g = HRef r -> is_Some (objects g !! r).
Proof.
  clear. unfold closed. intros [Hroot _]%andb_true_iff Hr.
  rewrite Hr in Hroot. by apply bool_decide_eq_true in Hroot.
Qed.

(** The objects a loaded store holds are objects of the heap. *)
Lemma graft_entry_bound g h s h' d k e :
  graft g h = Ok (HRef s, h') -> h' !! s = Some (HDict d) ->
  d !! k = Some (HRef e) -> is_Some (h' !! e).
Proof.
  clear. intros Hgraft Hs Hk.
  destruct (graft_dict _ _ _ _ _ Hgraft Hs)
    as (s0 & d0 & -> & Hroot0 & Hs0 & ->).
  apply graft_Ok in Hgraft as (Hclosed & _ & ->).
  apply lookup_fmap_Some in Hk as (v0 & Hv0 & Hk0).
  apply move_val_ref in Hv0 as (e0 & -> & ->).
  destruct (closed_dict _ _ _ _ _ Hclosed Hs0 Hk0) as [o0 He0].
  rewrite lookup_graft_new, He0. by eexists.
Qed.

Lemma graft_root_bound g h s h' :
  graft g h = Ok (HRef s, h') -> is_Some (h' !! s).
Proof.
  clear. intros Hgraft. pose proof Hgraft as (Hclosed & Hv & ->)%graft_Ok.
  symmetry in Hv. apply move_val_ref in Hv as (s0 & Hroot & ->).
  destruct (closed_root _ _ Hclosed Hroot) as [o0 Hs0].
  rewrite lookup_graft_new, Hs0. by eexists.
Qed.

(** *** Computations on the heap *)

Lemma hbind_io {A B} (m : M A) (k : A -> MH B) h w :
  hbind (io m) k h w =
    match m w with
    | (Ok a, w1) => k a h w1
    | (Raise e, w1) => (Raise e, w1)
    | (Unmodelled, w1) => (Unmodelled, w1)
    end.
Proof.
  clear. unfold hbind, io, bind, ret. by destruct (m w) as [[a | e |] w1].
Qed.

Lemma hbind_look {A B} (f : heap -> result A) (k : A -> MH B) h w :
  hbind (look f) k h w =
    match f h with
    | Ok a => k a h w
    | Raise e => (Raise e, w)
    | Unmodelled => (Unmodelled, w)
    end.
Proof. clear. unfold hbind, look, bind, lift. by destruct (f h). Qed.

Lemma hbind_mutate {B} (f : heap -> result heap) (k : unit -> MH B) h w :
  hbind (mutate f) k h w =
    match f h with
    | Ok h' => k tt h' w
    | Raise e => (Raise e, w)
    | Unmodelled => (Unmodelled, w)
    end.
Proof. clear. unfold hbind, mutate, bind, lift. by destruct (f h). Qed.

Lemma hbind_new {B} (o : hobj) (k : hval -> MH B) h w :
  hbind (new o) k h w = k (heap_new o h).1 (heap_new o h).2 w.
Proof. clear. done. Qed.

(** *** What a load builds and leaves *)

Lemma pickle_load_graph_eq filename fallback h w :
  pickle_load_graph filename fallback h w =
    (stored_graph filename fallback h w, after_load_graph filename w).
Proof.
  clear stores_distinct.
  unfold pickle_load_graph, stored_graph, after_load_graph.
  rewrite hbind_io. unfold os_path_isfile.
  destruct (fs w !! get_cache_data_path filename) as [content |] eqn:Hfile.
  - rewrite bool_decide_true by by eexists.
    cbn [negb]. rewrite hbind_io. unfold read_file. rewrite Hfile.
    unfold try_except_heap, try_except, unpickle, lift.
    destruct (pickle_loads_graph content) as [g | e |] eqn:Hg;
      cbn [result_bind is_corrupt_graph].
    + unfold graft. by destruct (closed g).
    + destruct (decide (e ∈ [UnpicklingError; EOFError])) as [Hin | Hnot].
      * rewrite bool_decide_true by done. rewrite hbind_io.
        rewrite (delete_cache_files_present _ content)
          by by rewrite get_cache_data_path_twice.
        rewrite get_cache_data_path_twice.
        apply elem_of_cons in Hin as [-> | Hin]; [done |].
        by apply elem_of_cons in Hin as [-> | ?%elem_of_nil].
      * rewrite bool_decide_false by done.
        destruct e; try done; destruct Hnot; [by left | by right; left].
    + done.
  - rewrite bool_decide_false by by intros [? ?]. done.
Qed.

Lemma store_left_trans filename w w1 w2 :
  store_left filename w w1 -> store_left filename w1 w2 ->
  store_left filename w w2.
Proof.
  clear. unfold store_left.
  intros [H1 | [H1 Hc]] [H2 | [H2 (content & Hfile & Hc2)]].
  - left. congruence.
  - rewrite H1 in Hfile. right. split; [done |]. by exists content.
  - right. split; [congruence | done].
  - congruence.
Qed.

Lemma after_load_graph_other filename w path :
  path <> get_cache_data_path filename ->
  fs (after_load_graph filename w) !! path = fs w !! path.
Proof.
  clear. intros Hne. unfold after_load_graph. destruct (fs w !! _); [| done].
  destruct (is_corrupt_graph _); [by apply lookup_delete_ne | done].
Qed.

Lemma after_load_graph_left filename' filename w :
  store_left filename' w (after_load_graph filename w).
Proof.
  clear. unfold store_left.
  destruct (decide (get_cache_data_path filename' =
                    get_cache_data_path filename)) as [-> | Hne];
    [| left; by apply after_load_graph_other].
  unfold after_load_graph.
  destruct (fs w !! _) as [content |] eqn:Hfile; [| by left].
  destruct (is_corrupt_graph _) eqn:Hc; [| by left].
  right. cbn [fs]. split; [apply lookup_delete_eq |]. by exists content.
Qed.

Lemma stored_graph_ext filename fallback h w w' :
  fs w' !! get_cache_data_path filename =
    fs w !! get_cache_data_path filename ->
  stored_graph filename fallback h w' = stored_graph filename fallback h w.
Proof. clear. unfold stored_graph. by intros ->. Qed.

Lemma loaded_graph_eq filename h w :
  loaded_graph filename h w =
    let? loaded :=
      stored_graph filename (heap_new (HDict ∅) h).1
        (heap_new (HDict ∅) h).2 w in
    Ok (Graph loaded.1 loaded.2).
Proof.
  clear stores_distinct. unfold loaded_graph.
  by rewrite pickle_load_graph_eq.
Qed.

Lemma loaded_graph_ext filename h w w' :
  fs w' !! get_cache_data_path filename =
    fs w !! get_cache_data_path filename ->
  loaded_graph filename h w' = loaded_graph filename h w.
Proof.
  clear stores_distinct. intros Hfile.
  by rewrite !loaded_graph_eq, (stored_graph_ext _ _ _ _ _ Hfile).
Qed.

(** A load with [{}] for the fallback, followed by [k]. *)
Lemma hbind_load {B} filename (k : hval -> MH B) h w :
  hbind (new (HDict ∅))
    (fun fallback => hbind (pickle_load_graph filename fallback) k) h w =
    match loaded_graph filename h w with
    | Ok g => k (root g) (objects g) (after_load_graph filename w)
    | Raise e => (Raise e, after_load_graph filename w)
    | Unmodelled => (Unmodelled, after_load_graph filename w)
    end.
Proof.
  clear stores_distinct. rewrite hbind_new, loaded_graph_eq.
  unfold hbind at 1, bind. rewrite pickle_load_graph_eq.
  by destruct (stored_graph _ _ _ _) as [[v h'] | e |].
Qed.

Lemma pickle_dump_graph_run filename data h w :
  pickle_dump_graph filename data h w =
    (Ok (tt, h),
     World
       (<[get_cache_data_path filename :=
            pickle_dumps_graph (Graph data h)]> (fs w))
       (log w)).
Proof. clear. done. Qed.

(** The store a load builds is the empty dictionary, a new object, or
    the graph of the file, placed above the objects there are. *)
Lemma loaded_graph_cases filename h w before :
  loaded_graph filename h w = Ok before ->
  let r := Pos.succ (top h) in
  before = Graph (HRef r) (<[r := HDict ∅]> h)
  \/ exists content g,
       fs w !! get_cache_data_path filename = Some content
       /\ pickle_loads_graph content = Ok g
       /\ graft g (<[r := HDict ∅]> h) = Ok (root before, objects before).
Proof.
  clear stores_distinct. intros Hload r. rewrite loaded_graph_eq in Hload.
  unfold stored_graph, heap_new in Hload. cbn [fst snd] in Hload.
  fold r in Hload.
  destruct (fs w !! _) as [content |] eqn:Hfile;
    [| injection Hload as <-; by left].
  destruct (is_corrupt_graph _) eqn:Hc; [injection Hload as <-; by left |].
  destruct (pickle_loads_graph content) as [g | e |] eqn:Hg; [| done..].
  cbn [result_bind] in Hload.
  destruct (graft g _) as [[v h'] | e |] eqn:Hgraft; [| done..].
  injection Hload as <-. right. by exists content, g.
Qed.

Lemma loaded_graph_subseteq filename h w before :
  loaded_graph filename h w = Ok before -> h ⊆ objects before.
Proof.
  clear stores_distinct. intros Hload.
  assert (Hnew : h ⊆ <[Pos.succ (top h) := HDict ∅]> h)
    by apply insert_subseteq, top_succ_fresh.
  destruct (loaded_graph_cases _ _ _ _ Hload)
    as [-> | (content & g & _ & _ & Hgraft)]; [done |].
  etrans; [exact Hnew | by eapply graft_subseteq].
Qed.

Lemma loaded_graph_root_new filename h w before s :
  loaded_graph filename h w = Ok before -> root before = HRef s ->
  h !! s = None.
Proof.
  clear stores_distinct. intros Hload Hroot.
  destruct (loaded_graph_cases _ _ _ _ Hload)
    as [-> | (content & g & _ & _ & Hgraft)].
  - injection Hroot as <-. apply top_succ_fresh.
  - rewrite Hroot in Hgraft. apply graft_root_new in Hgraft.
    destruct (h !! s) as [o |] eqn:Hs; [| done].
    assert (<[Pos.succ (top h) := HDict ∅]> h !! s = Some o); [| congruence].
    eapply lookup_weaken; [exact Hs |]. apply insert_subseteq, top_succ_fresh.
Qed.

Lemma loaded_graph_root_bound filename h w before s :
  loaded_graph filename h w = Ok before -> root before = HRef s ->
  is_Some (objects before !! s).
Proof.
  clear stores_distinct. intros Hload Hroot.
  destruct (loaded_graph_cases _ _ _ _ Hload)
    as [-> | (content & g & _ & _ & Hgraft)].
  - injection Hroot as <-. cbn [objects]. rewrite lookup_insert_eq. by eexists.
  - rewrite Hroot in Hgraft. by eapply graft_root_bound.
Qed.

Lemma loaded_graph_entry_bound filename h w before s d k e :
  loaded_graph filename h w = Ok before -> root before = HRef s ->
  objects before !! s = Some (HDict d) -> d !! k = Some (HRef e) ->
  is_Some (objects before !! e).
Proof.
  clear stores_distinct. intros Hload Hroot Hs Hk.
  destruct (loaded_graph_cases _ _ _ _ Hload)
    as [-> | (content & g & _ & _ & Hgraft)].
  - injection Hroot as <-. cbn [objects] in Hs.
    rewrite lookup_insert_eq in Hs. injection Hs as <-.
    by rewrite lookup_empty in Hk.
  - rewrite Hroot in Hgraft. by eapply graft_entry_bound.
Qed.

(** The objects an entry of a loaded store is made of are new objects. *)
Lemma loaded_graph_reach_new filename h w before s d k entry r :
  loaded_graph filename h w = Ok before -> root before = HRef s ->
  objects before !! s = Some (HDict d) -> d !! k = Some entry ->
  reach (objects before) entry r -> h !! r = None.
Proof.
  clear stores_distinct. intros Hload Hroot Hs Hk Hreach.
  destruct (loaded_graph_cases _ _ _ _ Hload)
    as [-> | (content & g & _ & _ & Hgraft)].
  - injection Hroot as <-. cbn [objects] in Hs.
    rewrite lookup_insert_eq in Hs. injection Hs as <-.
    by rewrite lookup_empty in Hk.
  - rewrite Hroot in Hgraft.
    destruct (graft_dict _ _ _ _ _ Hgraft Hs)
      as (s0 & d0 & -> & Hroot0 & Hs0 & ->).
    apply graft_Ok in Hgraft as (_ & _ & Hobjs). rewrite Hobjs in Hreach.
    apply lookup_fmap_Some in Hk as (entry0 & <- & Hk0).
    apply reach_graft in Hreach as (r0 & -> & _).
    destruct (h !! _) as [o |] eqn:Hr; [| done].
    assert (<[Pos.succ (top h) := HDict ∅]> h
              !! (top (<[Pos.succ (top h) := HDict ∅]> h) + r0)%positive
            = Some o) as Hr'.
    { eapply lookup_weaken; [exact Hr |].
      apply insert_subseteq, top_succ_fresh. }
    by rewrite top_fresh in Hr'.
Qed.

Lemma loaded_graph_apart filename project_dir other h w before :
  unshared filename project_dir other w ->
  loaded_graph filename h w = Ok before ->
  apart project_dir other before.
Proof.
  clear stores_distinct. intros Hunshared Hload.
  destruct (loaded_graph_cases _ _ _ _ Hload)
    as [-> | (content & g & Hfile & Hg & Hgraft)].
  - intros s d [= <-] Hs. cbn [objects] in Hs.
    rewrite lookup_insert_eq in Hs. injection Hs as <-.
    split; [by rewrite lookup_empty |].
    intros entry Hentry. by rewrite lookup_empty in Hentry.
  - destruct before as [v h']. by eapply apart_graft, Hunshared.
Qed.

(** *** What the operations change *)

Lemma heap_setitem_Ok o k v h h' :
  heap_setitem o k v h = Ok h' ->
  exists r d,
    o = HRef r /\ h !! r = Some (HDict d)
    /\ h' = <[r := HDict (<[k := v]> d)]> h.
Proof.
  clear. destruct o as [| n | r]; [done.. |]. cbn [heap_setitem].
  destruct (h !! r) as [[s | d] |] eqn:Hr; [done | | done].
  intros [= <-]. by exists r, d.
Qed.

Lemma heap_update_Ok o arg h h' :
  heap_update o arg h = Ok h' ->
  exists r,
    o = HRef r /\ is_Some (h !! r)
    /\ forall r', r' <> r -> h' !! r' = h !! r'.
Proof.
  clear. destruct o as [| n | r]; [done.. |]. cbn [heap_update].
  intros Hupdate. exists r. split; [done |].
  destruct (h !! r) as [[s | d] |] eqn:Hr; [| | done];
    (split; [by eexists |]); intros r' Hne;
    destruct (heap_items arg h) as [[s' | d'] | e |];
    cbn [result_bind] in Hupdate; try done;
    try (injection Hupdate as <-; by rewrite lookup_insert_ne).
  destruct (decide (s' = ∅)); [by injection Hupdate as <- | done].
Qed.

Lemma heap_getitem_Ok o k h v :
  heap_getitem o k h = Ok v ->
  exists r d, o = HRef r /\ h !! r = Some (HDict d) /\ d !! k = Some v.
Proof.
  clear. destruct o as [| n | r]; [done.. |]. cbn [heap_getitem].
  destruct (h !! r) as [[s | d] |] eqn:Hr; [done | | done].
  destruct (d !! k) as [v' |] eqn:Hk; [| done]. intros [= <-].
  by exists r, d.
Qed.

Lemma hbind_assoc {A B C} (m : MH A) (f : A -> MH B) (k : B -> MH C) h w :
  hbind (hbind m f) k h w = hbind m (fun a => hbind (f a) k) h w.
Proof.
  clear. unfold hbind, bind. by destruct (m h w) as [[[a h'] | e |] w'].
Qed.

Lemma store_left_written filename w w1 path content :
  store_left filename w w1 -> path <> get_cache_data_path filename ->
  store_left filename w (World (<[path := content]> (fs w1)) (log w1)).
Proof.
  clear. unfold store_left. cbn [fs]. intros Hleft Hne.
  by rewrite lookup_insert_ne.
Qed.

Lemma project_kept_intro other s d d' (h1 hf : heap) :
  h1 !! s = Some (HDict d) -> hf !! s = Some (HDict d') ->
  d' !! other = d !! other ->
  (forall entry r,
     d !! other = Some entry -> reach h1 entry r -> hf !! r = h1 !! r) ->
  project_kept other (Graph (HRef s) h1) (Graph (HRef s) hf).
Proof. clear. intros. by exists s, d, d'. Qed.

Lemma add_to_changed_files_graph_keeps project_dir other changed_files h w :
  project_dir <> other ->
  unshared changed_files_db project_dir other w ->
  let w' := (add_to_changed_files_graph project_dir changed_files h w).2 in
  entry_kept_graph caching_db other w w'
  /\ entry_kept_graph changed_files_db other w w'.
Proof.
  intros Hne Hunshared. unfold add_to_changed_files_graph.
  rewrite hbind_load.
  pose proof (after_load_graph_left caching_db changed_files_db w) as Hleft1.
  pose proof (after_load_graph_left changed_files_db changed_files_db w)
    as Hleft2.
  destruct (loaded_graph changed_files_db h w) as [[data h1] | e |] eqn:Hload;
    [| by split; left..].
  pose proof (loaded_graph_apart _ _ _ _ _ _ Hunshared Hload) as Hapart.
  cbn [root objects]. rewrite hbind_look.
  destruct (heap_contains data project_dir h1) as [[|] | e |] eqn:Hknown;
    [| | by split; left..].
  - rewrite hbind_assoc, hbind_look.
    destruct (heap_getitem data project_dir h1) as [entry | e |] eqn:Hentry;
      [| by split; left..].
    rewrite hbind_mutate.
    destruct (heap_update entry changed_files h1) as [hf | e |] eqn:Hupdate;
      [| by split; left..].
    rewrite pickle_dump_graph_run. cbn [snd]. split.
    { left. by apply store_left_written. }
    right. exists h, (Graph data h1), (Graph data hf).
    split; [done |]. cbn [fs]. split; [apply lookup_insert_eq |].
    apply heap_getitem_Ok in Hentry as (s & d & -> & Hs & Hp).
    apply heap_update_Ok in Hupdate as (e & -> & _ & Hframe).
    destruct (Hapart s d eq_refl Hs) as [Hself Hother].
    assert (e <> s) by (intros ->; by apply Hself).
    apply (project_kept_intro _ _ d d); [done | by rewrite Hframe | done |].
    intros entry r Hq Hreach. apply Hframe. intros ->.
    destruct (Hother entry Hq) as [_ Hmine]. exact (Hmine e Hp Hreach).
  - rewrite hbind_mutate.
    destruct (heap_setitem data project_dir changed_files h1)
      as [hf | e |] eqn:Hset; [| by split; left..].
    rewrite pickle_dump_graph_run. cbn [snd]. split.
    { left. by apply store_left_written. }
    right. exists h, (Graph data h1), (Graph data hf).
    split; [done |]. cbn [fs]. split; [apply lookup_insert_eq |].
    apply heap_setitem_Ok in Hset as (s & d & -> & Hs & ->).
    destruct (Hapart s d eq_refl Hs) as [Hself Hother].
    apply (project_kept_intro _ _ d (<[project_dir := changed_files]> d));
      [done | apply lookup_insert_eq | by apply lookup_insert_ne |].
    intros entry r Hq Hreach. apply lookup_insert_ne. intros <-.
    destruct (Hother entry Hq) as [Hstore _]. exact (Hstore Hreach).
Qed.

Lemma add_new_files_since_last_run_graph_keeps
    project_dir other last_coala_run new_files h w :
  project_dir <> other ->
  unshared caching_db project_dir other w ->
  let w' :=
    (add_new_files_since_last_run_graph project_dir last_coala_run new_files
       h w).2 in
  entry_kept_graph caching_db other w w'
  /\ entry_kept_graph changed_files_db other w w'.
Proof.
  intros Hne Hunshared.
  assert (Hrest : forall prior h0,
    let w' :=
      hbind (mutate (mark_new_graph prior new_files))
        (fun _ =>
           hbind (new (HDict ∅))
             (fun fallback =>
                hbind (pickle_load_graph caching_db fallback)
                  (fun data =>
                     hbind (mutate (heap_setitem data project_dir prior))
                       (fun _ => pickle_dump_graph caching_db data))))
        h0 w in
    entry_kept_graph caching_db other w w'.2
    /\ entry_kept_graph changed_files_db other w w'.2).
  { intros prior h0. rewrite hbind_mutate.
    destruct (mark_new_graph prior new_files h0) as [h' | e |];
      [| by split; left; left..].
    rewrite hbind_load.
    pose proof (after_load_graph_left caching_db caching_db w) as Hleft1.
    pose proof (after_load_graph_left changed_files_db caching_db w)
      as Hleft2.
    destruct (loaded_graph caching_db h' w) as [[data h1] | e |] eqn:Hload;
      [| by split; left..].
    pose proof (loaded_graph_apart _ _ _ _ _ _ Hunshared Hload) as Hapart.
    cbn [root objects]. rewrite hbind_mutate.
    destruct (heap_setitem data project_dir prior h1)
      as [hf | e |] eqn:Hset; [| by split; left..].
    rewrite pickle_dump_graph_run. cbn [snd]. split.
    2: { left. apply store_left_written; [done |]. by intros ?. }
    right. exists h', (Graph data h1), (Graph data hf).
    split; [done |]. cbn [fs]. split; [apply lookup_insert_eq |].
    apply heap_setitem_Ok in Hset as (s & d & -> & Hs & ->).
    destruct (Hapart s d eq_refl Hs) as [Hself Hother].
    apply (project_kept_intro _ _ d (<[project_dir := prior]> d));
      [done | apply lookup_insert_eq | by apply lookup_insert_ne |].
    intros entry r Hq Hreach. apply lookup_insert_ne. intros <-.
    destruct (Hother entry Hq) as [Hstore _]. exact (Hstore Hreach). }
  unfold add_new_files_since_last_run_graph.
  destruct last_coala_run as [| n | r]; [rewrite hbind_new | ..];
    apply Hrest.
Qed.

Lemma heap_iter_Ok o h names :
  heap_iter o h = Ok names -> exists r, o = HRef r /\ is_Some (h !! r).
Proof.
  clear. destruct o as [| n | r]; [done.. |]. cbn [heap_iter].
  destruct (h !! r) as [o |] eqn:Hr; [| done]. intros _. by exists r.
Qed.

(** The loop of [update_last_coala_run_time] changes the entry of the
    project and no other object, when this entry is not the store. *)
Lemma touch_file_graph_frame
    current_time project_dir changed_files s d e file_name h h' :
  h !! s = Some (HDict d) -> d !! project_dir = Some (HRef e) ->
  touch_file_graph current_time project_dir changed_files (HRef s) file_name
    h = Ok h' ->
  forall r, r <> e -> h' !! r = h !! r.
Proof.
  clear. intros Hs Hp. unfold touch_file_graph.
  destruct (heap_contains changed_files project_dir h) as [known | |];
    [| done..].
  cbn [result_bind].
  destruct (if negb known then Ok true
            else let? changed := heap_getitem changed_files project_dir h in
                 let? listed := heap_contains changed file_name h in
                 Ok (negb listed)) as [[|] | |]; cbn [result_bind];
    [| by intros [= <-] | done..].
  cbn [heap_getitem]. rewrite Hs, Hp. cbn [result_bind].
  intros (e' & d' & [= <-] & _ & ->)%heap_setitem_Ok r Hr.
  by apply lookup_insert_ne.
Qed.

Lemma touch_files_graph_frame
    current_time project_dir changed_files s d e file_names :
  d !! project_dir = Some (HRef e) -> e <> s ->
  forall h h',
    h !! s = Some (HDict d) ->
    touch_files_graph current_time project_dir changed_files (HRef s)
      file_names h = Ok h' ->
    forall r, r <> e -> h' !! r = h !! r.
Proof.
  clear. intros Hp Hne.
  induction file_names as [| file_name file_names IH]; intros h h' Hs.
  - by intros [= <-].
  - cbn [touch_files_graph].
    destruct (touch_file_graph _ _ _ _ file_name h) as [h1 | |] eqn:Hone;
      [| done..].
    cbn [result_bind]. intros Hrest r Hr.
    pose proof (touch_file_graph_frame _ _ _ _ _ _ _ _ _ Hs Hp Hone)
      as Hframe.
    rewrite <- (Hframe r Hr). apply (IH h1); [| done..].
    by rewrite Hframe.
Qed.

Lemma update_last_coala_run_time_graph_keeps
    current_time project_dir other h w :
  project_dir <> other ->
  unshared caching_db project_dir other w ->
  unshared changed_files_db project_dir other w ->
  let w' := (update_last_coala_run_time_graph current_time project_dir h w).2
  in
  entry_kept_graph caching_db other w w'
  /\ entry_kept_graph changed_files_db other w w'.
Proof.
  intros Hne Hunshared1 Hunshared2. unfold update_last_coala_run_time_graph.
  rewrite hbind_load. set (w1 := after_load_graph caching_db w).
  assert (Hleft1 : forall filename, store_left filename w w1)
    by (intros filename; apply after_load_graph_left).
  destruct (loaded_graph caching_db h w) as [[data h1] | e |] eqn:Hload1;
    [| by split; left..].
  cbn [root objects]. rewrite hbind_load.
  set (w2 := after_load_graph changed_files_db w1).
  assert (Hleft2 : forall filename, store_left filename w w2).
  { intros filename. eapply store_left_trans; [apply Hleft1 |].
    apply after_load_graph_left. }
  assert (Hsame : loaded_graph changed_files_db h1 w1 =
                  loaded_graph changed_files_db h1 w).
  { apply loaded_graph_ext, after_load_graph_other. by intros ?. }
  rewrite Hsame.
  destruct (loaded_graph changed_files_db h1 w)
    as [[changed_files h2] | e |] eqn:Hload2; [| by split; left..].
  cbn [root objects]. rewrite hbind_look.
  destruct (heap_contains data project_dir h2) as [[|] | e |] eqn:Hknown;
    [| by split; left..]. cbn [negb].
  rewrite hbind_look.
  destruct (heap_getitem data project_dir h2) as [entry | e |] eqn:Hentry;
    [| by split; left..].
  rewrite hbind_look.
  destruct (heap_iter entry h2) as [file_names | e |] eqn:Hiter;
    [| by split; left..].
  rewrite hbind_mutate.
  destruct (touch_files_graph _ _ _ _ file_names h2) as [h3 | e |] eqn:Htouch;
    [| by split; left..].
  rewrite hbind_new. unfold heap_new. cbn [fst snd].
  set (fresh := Pos.succ (top h3)). rewrite hbind_mutate.
  destruct (heap_setitem changed_files project_dir (HRef fresh) _)
    as [h5 | e |] eqn:Hset; [| by split; left..].
  unfold hbind, bind. rewrite !pickle_dump_graph_run. cbn [fst snd fs log].
  (* the objects at hand *)
  apply heap_getitem_Ok in Hentry as (s & d & -> & Hs2 & Hp).
  apply heap_iter_Ok in Hiter as (e & -> & _).
  apply heap_setitem_Ok in Hset as (sc & dc & -> & Hsc4 & ->).
  pose proof (loaded_graph_subseteq _ _ _ _ Hload2) as Hsub.
  cbn [objects] in Hsub.
  assert (Hs1 : h1 !! s = Some (HDict d)).
  { destruct (loaded_graph_root_bound _ _ _ _ s Hload1 eq_refl) as [o Ho].
    cbn [objects] in Ho. rewrite Ho. f_equal.
    pose proof (lookup_weaken _ _ _ _ Ho Hsub). congruence. }
  pose proof (loaded_graph_apart _ _ _ _ _ _ Hunshared1 Hload1) as Hapart1.
  pose proof (loaded_graph_apart _ _ _ _ _ _ Hunshared2 Hload2) as Hapart2.
  destruct (Hapart1 s d eq_refl Hs1) as [Hself1 Hother1].
  assert (Hes : e <> s) by (intros ->; by apply Hself1).
  pose proof (touch_files_graph_frame _ _ _ _ _ _ _ Hp Hes _ _ Hs2 Htouch)
    as Hframe.
  pose proof (loaded_graph_root_new _ _ _ _ sc Hload2 eq_refl) as Hsc1.
  assert (Hfresh : h3 !! fresh = None) by apply top_succ_fresh.
  assert (He1 : is_Some (h1 !! e)).
  { by apply (loaded_graph_entry_bound _ _ _ _ s d project_dir e Hload1). }
  assert (Hsce : sc <> e) by (intros ->; rewrite Hsc1 in He1; by destruct He1).
  assert (Hscf : sc <> fresh).
  { intros ->. by rewrite lookup_insert_eq in Hsc4. }
  rewrite lookup_insert_ne in Hsc4 by done.
  assert (Hsc2 : h2 !! sc = Some (HDict dc)) by by rewrite <- Hframe.
  destruct (Hapart2 sc dc eq_refl Hsc2) as [Hself2 Hother2].
  split; right.
  - exists h, (Graph (HRef s) h1),
      (Graph (HRef s)
         (<[sc := HDict (<[project_dir := HRef fresh]> dc)]>
            (<[fresh := HSet ∅]> h3))).
    split; [done |]. cbn [fs snd]. split.
    { rewrite lookup_insert_ne by by intros ?. apply lookup_insert_eq. }
    assert (Hkeep : forall r o,
              h1 !! r = Some o ->
              r <> e ->
              (<[sc := HDict (<[project_dir := HRef fresh]> dc)]>
                 (<[fresh := HSet ∅]> h3)) !! r = Some o).
    { intros r o Hr Hre.
      assert (h3 !! r = Some o) as Hr3.
      { rewrite Hframe by done. by eapply lookup_weaken. }
      rewrite !lookup_insert_ne; [done | congruence | congruence]. }
    apply (project_kept_intro _ _ d d); [done | by apply Hkeep | done |].
    intros entry r Hq Hreach.
    destruct (reach_bound _ _ _ Hreach) as [o Hr]. rewrite Hr.
    apply Hkeep; [done |]. intros ->.
    destruct (Hother1 entry Hq) as [_ Hmine]. exact (Hmine e Hp Hreach).
  - exists h1, (Graph (HRef sc) h2),
      (Graph (HRef sc)
         (<[sc := HDict (<[project_dir := HRef fresh]> dc)]>
            (<[fresh := HSet ∅]> h3))).
    split; [done |]. cbn [fs snd]. split; [apply lookup_insert_eq |].
    apply (project_kept_intro _ _ dc (<[project_dir := HRef fresh]> dc));
      [done | apply lookup_insert_eq | by apply lookup_insert_ne |].
    intros entry r Hq Hreach.
    destruct (reach_bound _ _ _ Hreach) as [o Hr].
    assert (Hre : r <> e).
    { intros ->.
      pose proof (loaded_graph_reach_new _ _ _ _ sc dc other entry e Hload2
                    eq_refl Hsc2 Hq Hreach) as Hnew.
      rewrite Hnew in He1. by destruct He1. }
    assert (h3 !! r = Some o) as Hr3 by by rewrite Hframe.
    rewrite !lookup_insert_ne; [congruence | congruence |].
    intros <-. destruct (Hother2 entry Hq) as [Hstore _].
    exact (Hstore Hreach).
Qed.

(** *** One project at a time *)

Lemma reach_flat h v r : flat h v = true -> reach h v r -> v = HRef r.
Proof.
  clear. intros Hflat Hreach.
  destruct Hreach as [r o Hr | r d k v1 r' Hr Hk Hreach]; [done |].
  cbn [flat] in Hflat. rewrite Hr in Hflat. rewrite forallb_forall in Hflat.
  assert (Hv1 : negb (is_ref v1) = true).
  { apply Hflat, list_elem_of_In, list_elem_of_fmap.
    exists (k, v1). split; [done |]. by apply elem_of_map_to_list. }
  by destruct Hreach.
Qed.

Lemma apart_flat_sound project_dir other g :
  apart_flat project_dir other g = true -> apart project_dir other g.
Proof.
  clear. unfold apart_flat. intros Hflat s d Hroot Hs.
  rewrite Hroot, Hs in Hflat.
  apply andb_true_iff in Hflat as [Hself Hother].
  apply negb_true_iff, bool_decide_eq_false in Hself. split; [done |].
  intros entry Hentry. rewrite Hentry in Hother.
  apply andb_true_iff in Hother as [Hother Hmine].
  apply andb_true_iff in Hother as [Hleaf Hstore].
  apply negb_true_iff, bool_decide_eq_false in Hstore.
  apply negb_true_iff, bool_decide_eq_false in Hmine.
  split.
  - by intros ->%(reach_flat _ _ _ Hleaf).
  - intros e He ->%(reach_flat _ _ _ Hleaf). by apply Hmine.
Qed.


End Caching.

(** ** The properties on the demo directory *)

Import Demo.

Lemma demo_dir_absolute : startswith_sep cache_dir = true.
Proof. reflexivity. Defined.

Lemma demo_stores_distinct :
  path_join cache_dir caching_db <> path_join cache_dir changed_files_db.
Proof. intros H. vm_compute in H. discriminate H. Defined.

Lemma pickle_dump_then_load_witness :
  serializable Pickle.dumps Pickle.loads answer
  /\ (let* _ := pickle_dump cache_dir Pickle.dumps "test_file" answer in
      pickle_load cache_dir Pickle.loads "test_file" VNone) fresh =
     (Ok answer,
      World
        (<[get_cache_data_path cache_dir "test_file" := Pickle.dumps answer]>
           (fs fresh))
        (log fresh)).
Proof.
  assert (Hser : serializable Pickle.dumps Pickle.loads answer)
    by (vm_compute; reflexivity).
  split; [exact Hser |].
  exact (pickle_dump_then_load cache_dir Pickle.dumps Pickle.loads
           "test_file" answer VNone fresh Hser).
Defined.

Lemma demo_tracked_run_times :
  pickle_load cache_dir Pickle.loads caching_db (VDict ∅) tracked =
    (Ok (VDict run_times), tracked).
Proof. vm_compute. reflexivity. Defined.

Lemma demo_tracked_changes :
  pickle_load cache_dir Pickle.loads changed_files_db (VDict ∅) tracked =
    (Ok (VDict changes), tracked).
Proof. vm_compute. reflexivity. Defined.

Lemma demo_fresh_run_times :
  pickle_load cache_dir Pickle.loads caching_db (VDict ∅) fresh =
    (Ok (VDict ∅), fresh).
Proof. vm_compute. reflexivity. Defined.

Lemma pickle_load_recovers_from_corruption_witness :
  corrupt (Pickle.loads (repeat x01 100))
  /\ exists w',
       pickle_load cache_dir Pickle.loads "corrupt_file" (VInt 42) corrupted =
         (Ok (VInt 42), w')
       /\ fs w' !! get_cache_data_path cache_dir "corrupt_file" = None
       /\ log w' = [corrupted_msg].
Proof.
  assert (Hc : corrupt (Pickle.loads (repeat x01 100)))
    by (left; vm_compute; reflexivity).
  assert (Hfile : fs corrupted !! get_cache_data_path cache_dir "corrupt_file"
                  = Some (repeat x01 100))
    by (vm_compute; reflexivity).
  split; [exact Hc |].
  destruct (pickle_load_recovers_from_corruption cache_dir Pickle.loads
              demo_dir_absolute "corrupt_file" (VInt 42) corrupted
              (repeat x01 100) Hfile) as [Hrecover _].
  destruct (Hrecover Hc) as (w' & Hrun & Hgone & _ & Hlog).
  exists w'. split; [exact Hrun |]. split; [exact Hgone | exact Hlog].
Defined.

(** C8, as stated, fails: a file whose bytes make the unpickler raise
    [TypeError] cannot be deserialized, yet [pickle_load] does not return
    the fallback; the exception reaches the caller and the file is still
    there. *)
Lemma pickle_load_lets_other_exceptions_through :
  Pickle.loads ill_typed_pickle = Raise TypeError
  /\ fs ill_typed !! get_cache_data_path cache_dir "corrupt_file" =
       Some ill_typed_pickle
  /\ pickle_load cache_dir Pickle.loads "corrupt_file" (VInt 42) ill_typed =
       (Raise TypeError, ill_typed)
  /\ ~ (exists w',
          pickle_load cache_dir Pickle.loads "corrupt_file" (VInt 42)
            ill_typed = (Ok (VInt 42), w')
          /\ fs w' !! get_cache_data_path cache_dir "corrupt_file" = None).
Proof.
  assert (Hrun : pickle_load cache_dir Pickle.loads "corrupt_file" (VInt 42)
                   ill_typed = (Raise TypeError, ill_typed))
    by (vm_compute; reflexivity).
  split; [vm_compute; reflexivity |].
  split; [vm_compute; reflexivity |].
  split; [exact Hrun |].
  intros (w' & Hok & _). rewrite Hrun in Hok. discriminate Hok.
Qed.

Lemma get_last_coala_run_time_entry_or_None_witness :
  get_last_coala_run_time cache_dir caching_db Pickle.loads project tracked =
    (Ok (VDict registered), tracked)
  /\ get_last_coala_run_time cache_dir caching_db Pickle.loads unregistered
       tracked = (Ok VNone, tracked).
Proof.
  split.
  - apply (get_last_coala_run_time_entry_or_None cache_dir caching_db
             Pickle.loads project tracked run_times tracked
             demo_tracked_run_times).
    reflexivity.
  - apply (get_last_coala_run_time_entry_or_None cache_dir caching_db
             Pickle.loads unregistered tracked run_times tracked
             demo_tracked_run_times).
    reflexivity.
Defined.

Lemma add_new_files_since_last_run_persists_witness :
  let w' :=
    (add_new_files_since_last_run cache_dir caching_db Pickle.dumps
       Pickle.loads project (VDict ∅) ["a"; "b"] fresh).2 in
  get_last_coala_run_time cache_dir caching_db Pickle.loads project w' =
    (Ok (VDict (<["a" := VInt (-1)]> (<["b" := VInt (-1)]> ∅))), w').
Proof.
  destruct (add_new_files_since_last_run_persists cache_dir caching_db
              Pickle.dumps Pickle.loads project (Some ∅) ["a"; "b"] fresh ∅
              fresh demo_fresh_run_times) as (Hrun & _ & _ & Hget).
  cbv zeta. rewrite Hrun. cbn [snd]. apply Hget.
  vm_compute. reflexivity.
Defined.

Lemma add_new_files_since_last_run_resets_tracked_file_witness :
  exists w',
    add_new_files_since_last_run cache_dir caching_db Pickle.dumps
      Pickle.loads project (VDict (<["x.c" := VInt now]> ∅)) ["x.c"] fresh =
      (Ok tt, w')
    /\ get_last_coala_run_time cache_dir caching_db Pickle.loads project w' =
         (Ok (VDict (<["x.c" := VInt (-1)]> ∅)), w').
Proof.
  destruct (add_new_files_since_last_run_resets_tracked_file cache_dir
              caching_db Pickle.dumps Pickle.loads project
              (<["x.c" := VInt now]> ∅) ["x.c"] "x.c" now fresh ∅ fresh
              demo_fresh_run_times)
    as (w' & Hrun & _ & _ & _ & Hget).
  - reflexivity.
  - discriminate.
  - by left.
  - exists w'. split; [exact Hrun |]. apply Hget. vm_compute. reflexivity.
Defined.

Lemma update_last_coala_run_time_unregistered_witness :
  update_last_coala_run_time cache_dir caching_db changed_files_db
    Pickle.dumps Pickle.loads now unregistered tracked = (Ok tt, tracked)
  /\ get_last_coala_run_time cache_dir caching_db Pickle.loads unregistered
       tracked = (Ok VNone, tracked)
  /\ pickle_load cache_dir Pickle.loads changed_files_db (VDict ∅) tracked =
       (Ok (VDict changes), tracked).
Proof.
  destruct (update_last_coala_run_time_unregistered cache_dir caching_db
              changed_files_db Pickle.dumps Pickle.loads demo_dir_absolute
              demo_stores_distinct now unregistered tracked run_times tracked
              (VDict changes) tracked demo_tracked_run_times
              demo_tracked_changes eq_refl)
    as (Hrun & _ & Hget & Hchanges & _).
  split; [exact Hrun |]. split; [exact Hget | exact Hchanges].
Defined.

Lemma update_last_coala_run_time_advances_unchanged_files_witness :
  exists w',
    update_last_coala_run_time cache_dir caching_db changed_files_db
      Pickle.dumps Pickle.loads now project tracked = (Ok tt, w')
    /\ get_last_coala_run_time cache_dir caching_db Pickle.loads project w' =
         (Ok (VDict (<["a.c" := VInt (-1)]> (<["b.c" := VInt now]> ∅))), w').
Proof.
  destruct (update_last_coala_run_time_advances_unchanged_files cache_dir
              caching_db changed_files_db Pickle.dumps Pickle.loads
              demo_stores_distinct now project tracked run_times tracked
              changes tracked registered (Some {["a.c"]})
              demo_tracked_run_times demo_tracked_changes eq_refl eq_refl)
    as (w' & Hrun & _ & _ & _ & _ & Hget).
  exists w'. split; [exact Hrun |]. apply Hget. vm_compute. reflexivity.
Defined.

Lemma update_last_coala_run_time_consumes_changes_witness :
  exists w',
    update_last_coala_run_time cache_dir caching_db changed_files_db
      Pickle.dumps Pickle.loads now project tracked = (Ok tt, w')
    /\ pickle_load cache_dir Pickle.loads changed_files_db (VDict ∅) w' =
         (Ok (VDict (<[project := VSet ∅]> changes)), w').
Proof.
  destruct (update_last_coala_run_time_consumes_changes cache_dir caching_db
              changed_files_db Pickle.dumps Pickle.loads now project tracked
              run_times tracked changes tracked registered (Some {["a.c"]})
              demo_tracked_run_times demo_tracked_changes eq_refl eq_refl)
    as (w' & Hrun & _ & _ & _ & Hload).
  exists w'. split; [exact Hrun |]. apply Hload. vm_compute. reflexivity.
Defined.

(** The unit test of [delete_cache_files]: a file that is there is removed
    and the answer is [True]; for a file that is not there the answer is
    [False] and the second warning names it. *)
Example delete_cache_files_test :
  delete_cache_files cache_dir ["corrupt_file"] corrupted =
    (Ok true, World ∅ [corrupted_msg])
  /\ delete_cache_files cache_dir ["non_existant_file"] fresh =
       (Ok false,
        World ∅
          [corrupted_msg;
           "There was a problem deleting the following files: " ++
           "non_existant_file. Please delete them manually from " ++
           "/home/user/.local/share/coala"]).
Proof. split; vm_compute; reflexivity. Qed.

(** ** The further properties on the demo directory *)

Lemma demo_corrupt_bytes : corrupt (Pickle.loads (repeat x01 100)).
Proof. left. vm_compute. reflexivity. Defined.

Lemma pickle_load_recovery_never_raises_witness :
  exists w' warnings,
    pickle_load cache_dir Pickle.loads "corrupt_file" (VInt 42) corrupted =
      (Ok (VInt 42), w')
    /\ fs w' ⊆ fs corrupted
    /\ log w' = (log corrupted ++ corrupted_msg :: warnings)%list.
Proof.
  apply (pickle_load_recovery_never_raises cache_dir Pickle.loads
           "corrupt_file" (VInt 42) corrupted (repeat x01 100)).
  - vm_compute. reflexivity.
  - exact demo_corrupt_bytes.
Defined.

Lemma pickle_load_keeps_file_it_cannot_remove_witness :
  pickle_load relative_dir Pickle.loads "corrupt_file" (VInt 42) stranded =
    (Ok (VInt 42),
     World (fs stranded)
       (log stranded ++
        [corrupted_msg;
         problem_msg [get_cache_data_path relative_dir "corrupt_file"]
           (path_dirname
              (get_cache_data_path relative_dir
                 (get_cache_data_path relative_dir "corrupt_file")))]))
  /\ get_cache_data_path relative_dir
       (get_cache_data_path relative_dir "corrupt_file") =
     "cache/cache/corrupt_file".
Proof.
  split; [| reflexivity].
  apply (pickle_load_keeps_file_it_cannot_remove relative_dir Pickle.loads
           "corrupt_file" (VInt 42) stranded (repeat x01 100)).
  - vm_compute. reflexivity.
  - exact demo_corrupt_bytes.
  - vm_compute. reflexivity.
Defined.

Lemma pickle_load_only_removes_its_file_witness :
  let w' :=
    (pickle_load cache_dir Pickle.loads "corrupt_file" (VInt 42) corrupted).2
  in
  fs w' ⊆ fs corrupted
  /\ (forall path, path <> get_cache_data_path cache_dir "corrupt_file" ->
        fs w' !! path = fs corrupted !! path)
  /\ (fs corrupted !! get_cache_data_path cache_dir "corrupt_file" = None ->
      pickle_load cache_dir Pickle.loads "corrupt_file" (VInt 42) corrupted =
        (Ok (VInt 42), corrupted)).
Proof.
  exact (pickle_load_only_removes_its_file cache_dir Pickle.loads
           demo_dir_absolute "corrupt_file" (VInt 42) corrupted).
Defined.

Lemma pickle_load_twice_witness :
  pickle_load cache_dir Pickle.loads "corrupt_file" (VInt 42)
    (pickle_load cache_dir Pickle.loads "corrupt_file" (VInt 42) corrupted).2 =
    ((pickle_load cache_dir Pickle.loads "corrupt_file" (VInt 42) corrupted).1,
     (pickle_load cache_dir Pickle.loads "corrupt_file" (VInt 42) corrupted).2).
Proof.
  exact (pickle_load_twice cache_dir Pickle.loads demo_dir_absolute
           "corrupt_file" (VInt 42) corrupted).
Defined.

Lemma add_to_changed_files_unions_witness :
  exists store,
    add_to_changed_files cache_dir changed_files_db Pickle.dumps Pickle.loads
      project {["b.c"]} tracked =
      (Ok tt,
       World
         (<[get_cache_data_path cache_dir changed_files_db :=
              Pickle.dumps (VDict store)]> (fs tracked))
         (log tracked))
    /\ store !! project = Some (VSet ({["a.c"]} ∪ {["b.c"]})).
Proof.
  destruct (add_to_changed_files_unions cache_dir changed_files_db
              Pickle.dumps Pickle.loads project {["b.c"]} tracked changes
              tracked (Some {["a.c"]}) demo_tracked_changes eq_refl)
    as (store & Hrun & Hset & _).
  exists store. split; [exact Hrun | exact Hset].
Defined.

Lemma add_to_changed_files_accumulates_witness :
  (let* _ :=
     add_to_changed_files cache_dir changed_files_db Pickle.dumps
       Pickle.loads project {["b.c"]} in
   add_to_changed_files cache_dir changed_files_db Pickle.dumps Pickle.loads
     project {["c.c"]}) tracked =
    (Ok tt,
     World
       (<[get_cache_data_path cache_dir changed_files_db :=
            Pickle.dumps
              (VDict
                 (<[project := VSet ({["a.c"]} ∪ {["b.c"]} ∪ {["c.c"]})]>
                    changes))]> (fs tracked))
       (log tracked)).
Proof.
  apply (add_to_changed_files_accumulates cache_dir changed_files_db
           Pickle.dumps Pickle.loads project {["b.c"]} {["c.c"]} tracked
           changes tracked (Some {["a.c"]}) demo_tracked_changes eq_refl).
  vm_compute. reflexivity.
Defined.

Lemma changed_files_survive_the_next_update_witness :
  exists w',
    (let* _ :=
       add_to_changed_files cache_dir changed_files_db Pickle.dumps
         Pickle.loads project {["b.c"]} in
     update_last_coala_run_time cache_dir caching_db changed_files_db
       Pickle.dumps Pickle.loads now project) tracked = (Ok tt, w')
    /\ get_last_coala_run_time cache_dir caching_db Pickle.loads project w' =
         (Ok (VDict registered), w').
Proof.
  destruct (changed_files_survive_the_next_update cache_dir caching_db
              changed_files_db Pickle.dumps Pickle.loads demo_dir_absolute
              demo_stores_distinct now project {["b.c"]} tracked run_times
              tracked changes tracked registered (Some {["a.c"]})
              demo_tracked_run_times demo_tracked_changes eq_refl eq_refl)
    as (w' & Hrun & Hfile & _).
  - vm_compute. reflexivity.
  - exists w'. split; [exact Hrun |].
    unfold get_last_coala_run_time, bind.
    erewrite pickle_load_decoded; [| exact Hfile | vm_compute; reflexivity].
    vm_compute. reflexivity.
Defined.

Lemma second_update_reaches_every_file_witness :
  exists w',
    (let* _ :=
       update_last_coala_run_time cache_dir caching_db changed_files_db
         Pickle.dumps Pickle.loads now project in
     update_last_coala_run_time cache_dir caching_db changed_files_db
       Pickle.dumps Pickle.loads (now + 60) project) tracked = (Ok tt, w')
    /\ get_last_coala_run_time cache_dir caching_db Pickle.loads project w' =
         (Ok (VDict (<["a.c" := VInt (now + 60)]>
                       (<["b.c" := VInt (now + 60)]> ∅))), w').
Proof.
  destruct (second_update_reaches_every_file cache_dir caching_db
              changed_files_db Pickle.dumps Pickle.loads
              demo_stores_distinct now (now + 60) project tracked run_times
              tracked changes tracked registered (Some {["a.c"]})
              demo_tracked_run_times demo_tracked_changes eq_refl eq_refl)
    as (w' & Hrun & Hfile & _).
  - vm_compute. reflexivity.
  - vm_compute. reflexivity.
  - exists w'. split; [exact Hrun |].
    unfold get_last_coala_run_time, bind.
    erewrite pickle_load_decoded; [| exact Hfile | vm_compute; reflexivity].
    vm_compute. reflexivity.
Defined.

Lemma new_files_get_the_time_of_the_next_update_witness :
  exists w',
    (let* _ :=
       add_new_files_since_last_run cache_dir caching_db Pickle.dumps
         Pickle.loads project (VDict ∅) ["test.c"] in
     update_last_coala_run_time cache_dir caching_db changed_files_db
       Pickle.dumps Pickle.loads now project) fresh = (Ok tt, w')
    /\ get_last_coala_run_time cache_dir caching_db Pickle.loads project w' =
         (Ok (VDict (<["test.c" := VInt now]> ∅)), w').
Proof.
  destruct (new_files_get_the_time_of_the_next_update cache_dir caching_db
              changed_files_db Pickle.dumps Pickle.loads demo_dir_absolute
              demo_stores_distinct now project (Some ∅) ["test.c"] fresh ∅
              fresh ∅ None demo_fresh_run_times eq_refl eq_refl)
    as (w' & Hrun & Hfile & _).
  - vm_compute. reflexivity.
  - exists w'. split; [exact Hrun |].
    unfold get_last_coala_run_time, bind.
    erewrite pickle_load_decoded; [| exact Hfile | vm_compute; reflexivity].
    vm_compute. reflexivity.
Defined.

Lemma operations_touch_only_their_stores_witness :
  let w' :=
    (run_operation cache_dir caching_db changed_files_db Pickle.dumps
       Pickle.loads (RecordChangedFiles {["b.c"]}) project tracked).2 in
  (forall path,
     path <> get_cache_data_path cache_dir caching_db ->
     path <> get_cache_data_path cache_dir changed_files_db ->
     fs w' !! path = fs tracked !! path)
  /\ fs w' !! get_cache_data_path cache_dir caching_db =
       fs tracked !! get_cache_data_path cache_dir caching_db.
Proof.
  exact (operations_touch_only_their_stores cache_dir caching_db
           changed_files_db Pickle.dumps Pickle.loads demo_dir_absolute
           demo_stores_distinct (RecordChangedFiles {["b.c"]}) project
           tracked).
Defined.

Lemma operations_warn_only_of_corruption_witness :
  log (run_operation cache_dir caching_db changed_files_db Pickle.dumps
         Pickle.loads (AdvanceRunClock now) project tracked).2 = log tracked.
Proof.
  apply (operations_warn_only_of_corruption cache_dir caching_db
           changed_files_db Pickle.dumps Pickle.loads demo_dir_absolute
           (AdvanceRunClock now) project tracked).
  - intros content Hfile. vm_compute in Hfile.
    injection Hfile as <-. vm_compute. reflexivity.
  - intros content Hfile. vm_compute in Hfile.
    injection Hfile as <-. vm_compute. reflexivity.
Defined.

Lemma add_new_files_since_last_run_rejects_other_priors_witness :
  add_new_files_since_last_run cache_dir caching_db Pickle.dumps Pickle.loads
    project (VInt 42) ["a.c"] tracked = (Raise TypeError, tracked).
Proof.
  apply (add_new_files_since_last_run_rejects_other_priors cache_dir
           caching_db Pickle.dumps Pickle.loads project (VInt 42) "a.c" []
           tracked).
  - discriminate.
  - intros d. discriminate.
Defined.

Lemma delete_cache_files_again_fails_witness :
  let w' := (delete_cache_files cache_dir ["corrupt_file"] corrupted).2 in
  (forall path, path ∉ get_cache_data_path cache_dir <$> ["corrupt_file"] ->
     fs w' !! path = fs corrupted !! path)
  /\ exists w'',
       delete_cache_files cache_dir ["corrupt_file"] w' = (Ok false, w'')
       /\ fs w'' = fs w'.
Proof.
  apply (delete_cache_files_again_fails cache_dir ["corrupt_file"] corrupted).
  discriminate.
Defined.

Lemma delete_cache_files_names_the_cache_directory_witness :
  exists first_warning,
    delete_cache_files cache_dir ["non_existant_file"] fresh =
      (Ok false,
       World ∅
         [first_warning;
          "There was a problem deleting the following files: " ++
          "non_existant_file. Please delete them manually from " ++
          "/home/user/.local/share/coala"]).
Proof.
  destruct (delete_cache_files_names_the_cache_directory cache_dir
              ["non_existant_file"] fresh) as [first_warning Hrun].
  - discriminate.
  - reflexivity.
  - repeat constructor.
  - vm_compute. discriminate.
  - exists first_warning. exact Hrun.
Defined.

Lemma registering_on_top_keeps_run_times_witness :
  let entry := with_new_files registered ["c.c"] in
  (let* last_coala_run :=
     get_last_coala_run_time cache_dir caching_db Pickle.loads project in
   add_new_files_since_last_run cache_dir caching_db Pickle.dumps
     Pickle.loads project last_coala_run ["c.c"]) tracked =
    (Ok tt,
     World
       (<[get_cache_data_path cache_dir caching_db :=
            Pickle.dumps (VDict (<[project := VDict entry]> run_times))]>
          (fs tracked))
       (log tracked))
  /\ (forall file_name,
        file_name ∉ ["c.c"] -> entry !! file_name = registered !! file_name)
  /\ (forall file_name,
        file_name ∈ ["c.c"] -> entry !! file_name = Some (VInt (-1))).
Proof.
  exact (registering_on_top_keeps_run_times cache_dir caching_db Pickle.dumps
           Pickle.loads demo_dir_absolute project ["c.c"] tracked run_times
           tracked (Some registered) demo_tracked_run_times eq_refl).
Defined.

Lemma pickle_dump_leaves_other_names_witness :
  (pickle_load cache_dir Pickle.loads caching_db (VDict ∅)
     (pickle_dump cache_dir Pickle.dumps changed_files_db answer tracked).2).1
  = (pickle_load cache_dir Pickle.loads caching_db (VDict ∅) tracked).1.
Proof.
  apply (pickle_dump_leaves_other_names cache_dir Pickle.dumps Pickle.loads
           changed_files_db answer caching_db (VDict ∅) tracked).
  exact demo_stores_distinct.
Defined.

Lemma get_cache_data_path_distinct_witness :
  get_cache_data_path cache_dir caching_db <>
  get_cache_data_path cache_dir changed_files_db.
Proof.
  apply (get_cache_data_path_distinct cache_dir caching_db changed_files_db).
  - reflexivity.
  - reflexivity.
  - discriminate.
Defined.



Lemma demo_tracked_unshared filename :
  filename = caching_db \/ filename = changed_files_db ->
  unshared cache_dir Pickle.loads_graph filename project other_project
    tracked.
Proof.
  intros Hname content g Hfile Hg. apply apart_flat_sound.
  destruct Hname as [-> | ->]; vm_compute in Hfile;
    injection Hfile as <-; vm_compute in Hg; injection Hg as <-;
    vm_compute; reflexivity.
Qed.

